(** * The Sanic worker manager, [sanic/worker/manager.py]

    A shallow embedding of the [WorkerManager] class: the supervisor that
    owns the worker processes of one server instance, waits for their
    acknowledgement, dispatches restart commands read from the monitor
    channel and tears the processes down.

    Layout:
    - [Py]: the Python values and string operations the module uses;
    - the collaborators of [sanic.worker.process] and [sanic.compat] as
      type classes (their code is outside this module);
    - a small state and exception monad, the state of a manager and of
      its surroundings;
    - the methods of [WorkerManager], one definition per method;
    - [Double]: a test double of the collaborators, and scenarios on it;
    - the vocabulary in which the properties are stated;
    - the properties, by method, and runs of the test double;
    - further properties of the methods: what they leave unchanged, what
      holds when they return, and how they compose. *)

From Stdlib Require Import ZArith Lia Ascii String.
From stdpp Require Import base gmap strings list fin_maps pretty.

Local Open Scope string_scope.
Local Open Scope Z_scope.
Local Open Scope list_scope.

(** ** Python values and built-ins *)

Module Py.

(** The values stored in the shared state table and passed as keyword
    arguments.  [PRef] is an opaque object (a callable, a settings
    dictionary, a context object). *)
Inductive pyval :=
| PNone
| PBool (b : bool)
| PInt (z : Z)
| PStr (s : string)
| PRef (addr : N).

#[global] Instance pyval_eq_dec : EqDecision pyval.
Proof. solve_decision. Defined.

(** [bool(v)] *)
Definition truthy (v : pyval) : bool :=
  match v with
  | PNone => false
  | PBool b => b
  | PInt z => negb (z =? 0)
  | PStr s => negb (bool_decide (s = ""))
  | PRef _ => true
  end.

(** [v == s] for a string [s]: only a string of the same characters is
    equal to a string. *)
Definition eq_str (v : pyval) (s : string) : bool :=
  match v with
  | PStr s' => bool_decide (s' = s)
  | _ => false
  end.

(** [d.get(key)]: the value, or [None] for a missing key. *)
Definition get (d : gmap string pyval) (key : string) : pyval :=
  default PNone (d !! key).

(** [d.values()], in the order the map enumerates its entries. *)
Definition values {A} (d : gmap string A) : list A := (map_to_list d).*2.

(** [all(l)] for a list of booleans. *)
Definition all (l : list bool) : bool := forallb id l.

(** [not l] for a list. *)
Definition is_empty {A} (l : list A) : bool :=
  match l with [] => true | _ => false end.

(** [x in l] for a list of strings. *)
Definition contains (x : string) (l : list string) : bool :=
  bool_decide (x ∈ l).

(** [range(n)] *)
Definition range (n : Z) : list Z := Z.of_nat <$> seq 0 (Z.to_nat n).

(** Characters are code points below 256.  [str.isspace] on them. *)
Definition isspace (c : ascii) : bool :=
  let n := N_of_ascii c in
  ((9 <=? n) && (n <=? 13) || (28 <=? n) && (n <=? 32)
   || (n =? 133) || (n =? 160))%N.

(** [s.lstrip()], [s.rstrip()], [s.strip()] *)
Fixpoint lstrip (s : string) : string :=
  match s with
  | String c s' => if isspace c then lstrip s' else s
  | EmptyString => EmptyString
  end.

Fixpoint rstrip (s : string) : string :=
  match s with
  | String c s' =>
      match rstrip s' with
      | EmptyString => if isspace c then EmptyString else String c EmptyString
      | r => String c r
      end
  | EmptyString => EmptyString
  end.

Definition strip (s : string) : string := rstrip (lstrip s).

(** [s.split(sep)] for a separator of one character: never empty. *)
Fixpoint split (sep : ascii) (s : string) : list string :=
  match s with
  | EmptyString => [EmptyString]
  | String c s' =>
      if bool_decide (c = sep) then EmptyString :: split sep s'
      else match split sep s' with
           | h :: t => String c h :: t
           | [] => [String c EmptyString]
           end
  end.

(** [s.split(sep, 1)]: one or two pieces. *)
Fixpoint split1 (sep : ascii) (s : string) : list string :=
  match s with
  | EmptyString => [EmptyString]
  | String c s' =>
      if bool_decide (c = sep) then [EmptyString; s']
      else match split1 sep s' with
           | h :: t => String c h :: t
           | [] => [String c EmptyString]
           end
  end.

End Py.
Import Py.

(** ** The surroundings of the module *)

(** The standard library's [signal] module, as far as the manager uses it. *)
Module signal.
Inductive Signals := SIGINT | SIGTERM | SIGKILL.

#[global] Instance Signals_eq_dec : EqDecision Signals.
Proof. solve_decision. Defined.
End signal.

(** A message of the monitor channel: [None] or a string. *)
Definition Msg : Type := option string.

(** Modelled from the spec: the collaborators [ProcessState] and
    [WorkerProcess] of [sanic.worker.process] and the constant
    [OS_IS_WINDOWS] of [sanic.compat], which the manager imports.  A state
    is a member of an integer enumeration with a name; a process exposes
    [pid], [name], [state] and the operations [start], [join], [terminate],
    [restart] and [is_alive].  An operation acts on the process it is called
    on and returns normally. *)
Class ProcessAPI := {
  OS_IS_WINDOWS : bool;
  ProcessState : Type;
  ProcessState_value : ProcessState → Z;
  ProcessState_name : ProcessState → string;
  ACKED : ProcessState;
  JOINED : ProcessState;
  WorkerProcess : Type;
  SERVER_LABEL : string;
  process_pid : WorkerProcess → Z;
  process_name : WorkerProcess → string;
  process_state : WorkerProcess → ProcessState;
  process_is_alive : WorkerProcess → bool;
  process_start : WorkerProcess → WorkerProcess;
  process_join : WorkerProcess → WorkerProcess;
  process_terminate : WorkerProcess → WorkerProcess;
  process_restart : gmap string pyval → WorkerProcess → WorkerProcess;
}.

(** Modelled from the spec: the collaborator [Worker] of
    [sanic.worker.process], a named unit that owns an ordered collection of
    processes. *)
Record Worker `{ProcessAPI} := {
  ident : string;
  processes : list WorkerProcess;
}.

(** Modelled from the spec: the constructor
    [Worker(ident, func, kwargs, context, worker_state)], which builds the
    processes of the worker without starting them. *)
Class WorkerAPI `{ProcessAPI} := {
  Worker_init : string → pyval → pyval → pyval → Worker;
}.

(** ** The monad of the methods *)

Inductive exn :=
| RuntimeError (msg : string)
| ServerKilled
| InterruptedError.

(** A call returns a value, raises, or is still running when the fuel of
    a loop is used up. *)
Inductive outcome (A : Type) :=
| Returned (a : A)
| Raised (e : exn)
| Diverged.
Arguments Returned {A} a.
Arguments Raised {A} e.
Arguments Diverged {A}.

(** A computation over a state of type [S]. *)
Definition StateExn (S A : Type) : Type := S → S * outcome A.

Definition ret {S A} (a : A) : StateExn S A := λ s, (s, Returned a).

Definition bind {S A B} (c : StateExn S A) (f : A → StateExn S B)
  : StateExn S B :=
  λ s, match c s with
       | (s', Returned a) => f a s'
       | (s', Raised e) => (s', Raised e)
       | (s', Diverged) => (s', Diverged)
       end.

Definition raise {S A} (e : exn) : StateExn S A := λ s, (s, Raised e).
Definition diverge {S A} : StateExn S A := λ s, (s, Diverged).

(** [try: body except InterruptedError: handler] *)
Definition try_except_InterruptedError {S A} (body handler : StateExn S A)
  : StateExn S A :=
  λ s, match body s with
       | (s', Raised InterruptedError) => handler s'
       | r => r
       end.

Declare Scope M_scope.
Delimit Scope M_scope with M.
Notation "x ← y ; z" := (bind y (λ x, z))
  (at level 20, y at level 100, z at level 200, only parsing) : M_scope.
Notation "x ;; z" := (bind x (λ _, z))
  (at level 100, z at level 200, only parsing, right associativity) : M_scope.

Section Manager.
Context {PAPI : ProcessAPI} {API : WorkerAPI}.

(** [SIGKILL] as the module binds it at import. *)
Definition SIGKILL : signal.Signals :=
  if negb OS_IS_WINDOWS then signal.SIGKILL else signal.SIGINT.

(** What the logger is asked to write. *)
Inductive LogRecord :=
| Debug_joining_processes
| Debug_found (pid : Z) (state_name : string)
| Debug_joining (pid : Z)
| Debug_monitor_message (message : Msg)
| Error_not_all_acknowledged (message : string)
| Info_killing (name : string) (pid : Z)
| Info_received_signal (sig : signal.Signals).

(** The calls that leave the manager, in the order they are made. *)
Inductive Event :=
| Created (w : Worker)
| Start (p : WorkerProcess)
| Join (p : WorkerProcess)
| Terminate (p : WorkerProcess)
| Restart (p : WorkerProcess) (kwargs : gmap string pyval)
| OsKill (pid : Z) (sig : signal.Signals)
| SignalFunc (sig : signal.Signals)
| Log (r : LogRecord).

(** What the other processes do while the manager waits in one
    [poll(0.1)]: the workers write records into the shared table,
    messages arrive on the channel, and the wait may be interrupted. *)
Record Tick := {
  writes : list (string * gmap string pyval);
  arrivals : list Msg;
  interrupted : bool;
}.

(** The objects the manager shares with its surroundings. *)
Record World := {
  worker_state : gmap string (gmap string pyval);
  inbox : list Msg;
  script : list Tick;
  trace : list Event;
  getpid : Z;
}.

(** The fields of a [WorkerManager]; [monitor_publisher],
    [monitor_subscriber] and [worker_state] refer to the world. *)
Record WorkerManager := {
  num_server : Z;
  context : pyval;
  transient : list Worker;
  durable : list Worker;
  terminated : bool;
}.

Record State := {
  self : WorkerManager;
  world : World;
}.

Definition THRESHOLD : Z := 300.

(** The methods run in the monad over the state of a manager. *)
Definition M : Type → Type := StateExn State.
Local Open Scope M_scope.

Definition get_self : M WorkerManager := λ s, (s, Returned (self s)).
Definition get_world : M World := λ s, (s, Returned (world s)).
Definition modify_self (f : WorkerManager → WorkerManager) : M unit :=
  λ s, ({| self := f (self s); world := world s |}, Returned tt).
Definition modify_world (f : World → World) : M unit :=
  λ s, ({| self := self s; world := f (world s) |}, Returned tt).

(** Field updates. *)
Definition set_transient (l : list Worker) (m : WorkerManager) :=
  {| num_server := num_server m; context := context m; transient := l;
     durable := durable m; terminated := terminated m |}.
Definition set_durable (l : list Worker) (m : WorkerManager) :=
  {| num_server := num_server m; context := context m;
     transient := transient m; durable := l; terminated := terminated m |}.
Definition set_terminated (b : bool) (m : WorkerManager) :=
  {| num_server := num_server m; context := context m;
     transient := transient m; durable := durable m; terminated := b |}.
Definition set_worker_state (t : gmap string (gmap string pyval)) (w : World) :=
  {| worker_state := t; inbox := inbox w; script := script w;
     trace := trace w; getpid := getpid w |}.
Definition set_inbox (q : list Msg) (w : World) :=
  {| worker_state := worker_state w; inbox := q; script := script w;
     trace := trace w; getpid := getpid w |}.
Definition set_script (sc : list Tick) (w : World) :=
  {| worker_state := worker_state w; inbox := inbox w; script := sc;
     trace := trace w; getpid := getpid w |}.
Definition set_trace (tr : list Event) (w : World) :=
  {| worker_state := worker_state w; inbox := inbox w; script := script w;
     trace := tr; getpid := getpid w |}.

Definition emit (evs : list Event) : M unit :=
  modify_world (λ w, set_trace (trace w ++ evs) w).
Definition log (r : LogRecord) : M unit := emit [Log r].

(** ** The monitor channel *)

(** One tick of the surroundings. *)
Definition apply_tick (t : Tick) (w : World) : World :=
  set_inbox (inbox w ++ arrivals t)
    (set_worker_state
       (foldl (λ tbl kv, <[kv.1 := kv.2]> tbl) (worker_state w) (writes t)) w).

(** [self.monitor_subscriber.poll(0.1)]: the surroundings make their next
    tick (none once the script is over), then the answer is whether a
    message is waiting. *)
Definition poll : M bool := λ s,
  let w := world s in
  match script w with
  | [] => (s, Returned (negb (is_empty (inbox w))))
  | t :: sc =>
      let w' := set_script sc (apply_tick t w) in
      let s' := {| self := self s; world := w' |} in
      if interrupted t then (s', Raised InterruptedError)
      else (s', Returned (negb (is_empty (inbox w'))))
  end.

(** [self.monitor_subscriber.recv()]: blocks while nothing is waiting. *)
Definition recv : M Msg := λ s,
  match inbox (world s) with
  | [] => (s, Diverged)
  | m :: q => ({| self := self s; world := set_inbox q (world s) |}, Returned m)
  end.

(** [self.monitor_publisher.send(msg)]: the two ends belong to one
    channel, what is sent on the publisher is received on the subscriber. *)
Definition send (msg : Msg) : M unit :=
  modify_world (λ w, set_inbox (inbox w ++ [msg]) w).

(** ** Iteration over processes *)

(** The body of a [for process in ...] loop: it reads and updates a local
    variable, calls methods of the process and leaves events. *)
Definition Body (L : Type) : Type :=
  L → WorkerProcess → L * list Event * WorkerProcess.

Fixpoint for_processes {L} (body : Body L) (acc : L) (ps : list WorkerProcess)
  : L * list Event * list WorkerProcess :=
  match ps with
  | [] => (acc, [], [])
  | p :: ps =>
      let '(acc1, evs1, p') := body acc p in
      let '(acc2, evs2, ps') := for_processes body acc1 ps in
      (acc2, evs1 ++ evs2, p' :: ps')
  end.

Fixpoint for_workers {L} (body : Body L) (acc : L) (ws : list Worker)
  : L * list Event * list Worker :=
  match ws with
  | [] => (acc, [], [])
  | w :: ws =>
      let '(acc1, evs1, ps') := for_processes body acc (processes w) in
      let '(acc2, evs2, ws') := for_workers body acc1 ws in
      (acc2, evs1 ++ evs2, {| ident := ident w; processes := ps' |} :: ws')
  end.

(** [self.workers] *)
Definition workers (m : WorkerManager) : list Worker :=
  transient m ++ durable m.

(** [self.processes], as a list. *)
Definition all_processes (m : WorkerManager) : list WorkerProcess :=
  workers m ≫= processes.

(** [self.transient_processes], as a list. *)
Definition transient_processes (m : WorkerManager) : list WorkerProcess :=
  transient m ≫= processes.

(** [for process in self.processes: body] *)
Definition for_each_process {L} (body : Body L) (acc : L) : M L := λ s,
  let m := self s in
  let '(acc1, evs1, ts) := for_workers body acc (transient m) in
  let '(acc2, evs2, ds) := for_workers body acc1 (durable m) in
  ({| self := set_durable ds (set_transient ts m);
      world := set_trace (trace (world s) ++ evs1 ++ evs2) (world s) |},
   Returned acc2).

(** [for process in self.transient_processes: body] *)
Definition for_each_transient_process {L} (body : Body L) (acc : L) : M L :=
  λ s,
  let m := self s in
  let '(acc1, evs1, ts) := for_workers body acc (transient m) in
  ({| self := set_transient ts m;
      world := set_trace (trace (world s) ++ evs1) (world s) |},
   Returned acc1).

(** [for x in l: body x] *)
Fixpoint for_in {A} (l : list A) (body : A → M unit) : M unit :=
  match l with
  | [] => ret tt
  | x :: l => body x;; for_in l body
  end.

(** ** The methods of [WorkerManager] *)

(** [container.append(w)] for each of the two containers. *)
Definition append_transient (w : Worker) (m : WorkerManager) :=
  set_transient (transient m ++ [w]) m.
Definition append_durable (w : Worker) (m : WorkerManager) :=
  set_durable (durable m ++ [w]) m.

Definition manage (ident : string) (func kwargs : pyval) (transient : bool)
  : M unit :=
  m ← get_self;
  let w := Worker_init ident func kwargs (context m) in
  emit [Created w];;
  modify_self (if transient then append_transient w else append_durable w).

Definition shutdown : M unit :=
  for_each_process
    (λ _ process,
       if process_is_alive process
       then (tt, [Terminate process], process_terminate process)
       else (tt, [], process))
    tt.

Definition shutdown_signal (sig : signal.Signals) (frame : pyval) : M unit :=
  log (Info_received_signal sig);;
  send None;;
  shutdown.

Definition __init__ (number : Z) (serve server_settings context : pyval)
  : M unit :=
  modify_self (λ m,
    {| num_server := number; context := context; transient := [];
       durable := []; terminated := terminated m |});;
  w ← get_world;
  modify_world
    (set_worker_state
       (<["Sanic-Main" := {["pid" := PInt (getpid w)]}]> (worker_state w)));;
  modify_self (set_terminated false);;
  (if number =? 0
   then raise (RuntimeError "Cannot serve with no workers")
   else ret tt);;
  for_in (range number)
    (λ i, manage (SERVER_LABEL +:+ "-" +:+ pretty i) serve server_settings
            true);;
  emit [SignalFunc signal.SIGINT];;
  emit [SignalFunc signal.SIGTERM].

(** [WorkerManager(number, serve, server_settings, context,
    monitor_pubsub, worker_state)]: a new object, initialised by
    [__init__]; the channel and the table are those of the world.  The
    caller gets the object unless [__init__] raises. *)
Definition blank : WorkerManager :=
  {| num_server := 0; context := PNone; transient := []; durable := [];
     terminated := false |}.

Definition new_WorkerManager (number : Z)
    (serve server_settings context : pyval) (w : World)
  : World * outcome WorkerManager :=
  match __init__ number serve server_settings context
          {| self := blank; world := w |} with
  | (s, Returned _) => (world s, Returned (self s))
  | (s, Raised e) => (world s, Raised e)
  | (s, Diverged) => (world s, Diverged)
  end.

Definition start : M unit :=
  for_each_process
    (λ _ process, (tt, [Start process], process_start process)) tt.

(** [process.state < ProcessState.JOINED] *)
Definition before_JOINED (process : WorkerProcess) : bool :=
  ProcessState_value (process_state process) <? ProcessState_value JOINED.

(** One execution of the body of [join] up to the test of [joined]. *)
Definition join_pass : M (gset Z) :=
  log Debug_joining_processes;;
  for_each_process
    (λ joined process,
       let found :=
         Log (Debug_found (process_pid process)
                (ProcessState_name (process_state process))) in
       if before_JOINED process
       then ({[process_pid process]} ∪ joined,
             [found; Log (Debug_joining (process_pid process)); Join process],
             process_join process)
       else (joined, [found], process))
    ∅.

(** The recursion of [join], [fuel] calls deep. *)
Fixpoint join (fuel : nat) : M unit :=
  match fuel with
  | O => diverge
  | S fuel =>
      joined ← join_pass;
      if bool_decide (joined ≠ ∅) then join fuel else ret tt
  end.

Definition terminate : M unit :=
  m ← get_self;
  (if negb (terminated m)
   then for_each_process
          (λ _ process, (tt, [Terminate process], process_terminate process))
          tt
   else ret tt);;
  modify_self (set_terminated true).

(** [not process_names or process.name in process_names] *)
Definition selected (process_names : option (list string))
    (process : WorkerProcess) : bool :=
  match process_names with
  | None => true
  | Some names => is_empty names || contains (process_name process) names
  end.

Definition restart (process_names : option (list string))
    (kwargs : gmap string pyval) : M unit :=
  for_each_transient_process
    (λ _ process,
       if selected process_names process
       then (tt, [Restart process kwargs], process_restart kwargs process)
       else (tt, [], process))
    tt.

Definition kill {A} : M A :=
  for_each_process
    (λ _ process,
       (tt,
        [Log (Info_killing (process_name process) (process_pid process));
         OsKill (process_pid process) SIGKILL],
        process))
    tt;;
  raise ServerKilled.

Definition _all_workers_ack : M bool :=
  m ← get_self;
  w ← get_world;
  let acked :=
    (λ worker_state, eq_str (get worker_state "state") (ProcessState_name ACKED))
      <$> filter (λ worker_state, truthy (get worker_state "server") = true)
            (values (worker_state w)) in
  ret (all acked && (Z.of_nat (length acked) =? num_server m)).

(** The two diagnostics of [wait_for_ack]; [THRESHOLD / 10] prints as
    [30.0]. *)
Definition message_timeout : string :=
  "It seems that one or more of your workers failed to come "
  +:+ "online in the allowed time. Sanic is shutting down to avoid a "
  +:+ "deadlock. The current threshold is 30.0s. "
  +:+ "If this problem persists, please check out the documentation "
  +:+ "___.".

Definition message_early : string :=
  "One of your worker processes terminated before startup "
  +:+ "was completed. Please solve any errors experienced "
  +:+ "during startup. If you do not see an exception traceback "
  +:+ "in your error logs, try running Sanic in in a single "
  +:+ "process using --single-process or single_process=True. "
  +:+ "Once you are confident that the server is able to start "
  +:+ "without errors you can switch back to multiprocess mode.".

(** The end of the loop body of [wait_for_ack], from [misses += 1];
    [again] is the rest of the loop. *)
Definition count_miss (again : Z → string → M unit)
    (misses : Z) (message : string) : M unit :=
  let misses := misses + 1 in
  (if misses >? THRESHOLD
   then log (Error_not_all_acknowledged message);; kill
   else ret tt);;
  again misses message.

(** The [while] loop of [wait_for_ack], for at most [fuel] iterations. *)
Fixpoint wait_for_ack_loop (fuel : nat) (misses : Z) (message : string)
  : M unit :=
  match fuel with
  | O => diverge
  | S fuel =>
      acked ← _all_workers_ack;
      if acked then ret tt
      else
        ready ← poll;
        if ready
        then
          monitor_msg ← recv;
          if negb (bool_decide (monitor_msg = Some "__TERMINATE_EARLY__"))
          then send monitor_msg;; wait_for_ack_loop fuel misses message
          else count_miss (wait_for_ack_loop fuel) THRESHOLD message_early
        else count_miss (wait_for_ack_loop fuel) misses message
  end.

Definition wait_for_ack (fuel : nat) : M unit :=
  wait_for_ack_loop fuel 0 message_timeout.

(** How an iteration of [while True] ends. *)
Inductive control := Break | Continue.

(** [not message] *)
Definition falsy (message : Msg) : bool :=
  match message with
  | None => true
  | Some s => bool_decide (s = "")
  end.

(** The command a message carries: the filter and the keyword arguments
    handed to [restart]. *)
Definition parse_message (message : string)
  : option (list string) * gmap string pyval :=
  let split_message := split1 ":" message in
  let processes := default "" (split_message !! 0%nat) in
  let reloaded_files :=
    if (1 <? Z.of_nat (length split_message))
    then default PNone (PStr <$> split_message !! 1%nat)
    else PNone in
  let process_names := strip <$> split "," processes in
  let process_names :=
    if contains "__ALL_PROCESSES__" process_names then None
    else Some process_names in
  (process_names, {["reloaded_files" := reloaded_files]}).

(** The body of the [try] statement of [monitor]. *)
Definition monitor_body : M control :=
  ready ← poll;
  if ready
  then
    message ← recv;
    log (Debug_monitor_message message);;
    if falsy message then ret Break
    else if bool_decide (message = Some "__TERMINATE__")
    then shutdown;; ret Break
    else
      let '(process_names, kwargs) := parse_message (default "" message) in
      restart process_names kwargs;;
      ret Continue
  else ret Continue.

(** The [while True] loop of [monitor], for at most [fuel] iterations. *)
Fixpoint monitor_loop (fuel : nat) : M unit :=
  match fuel with
  | O => diverge
  | S fuel =>
      c ← try_except_InterruptedError monitor_body
            (if negb OS_IS_WINDOWS then raise InterruptedError
             else ret Break);
      match c with
      | Break => ret tt
      | Continue => monitor_loop fuel
      end
  end.

Definition monitor (fuel : nat) : M unit :=
  wait_for_ack fuel;;
  monitor_loop fuel.

Definition run (fuel : nat) : M unit :=
  start;;
  monitor fuel;;
  join fuel;;
  terminate.

End Manager.

Arguments Worker_init {_ _} ident func kwargs context.

(** ** A test double of the collaborators

    Processes without an operating system behind them: a record of the
    observable attributes, updated by the lifecycle calls. *)
Module Double.

Inductive stage := Idle | Started | Acked | Joined | Terminated.

Definition stage_value (s : stage) : Z :=
  match s with
  | Idle => 1 | Started => 2 | Acked => 3 | Joined => 4 | Terminated => 5
  end.

Definition stage_name (s : stage) : string :=
  match s with
  | Idle => "IDLE" | Started => "STARTED" | Acked => "ACKED"
  | Joined => "JOINED" | Terminated => "TERMINATED"
  end.

Record process := {
  pid : Z;
  name : string;
  state : stage;
  alive : bool;
  restarts : list (gmap string pyval);
}.

Definition set_stage (st : stage) (up : bool) (p : process) : process :=
  {| pid := pid p; name := name p; state := st; alive := up;
     restarts := restarts p |}.

Definition restarted (kwargs : gmap string pyval) (p : process) : process :=
  {| pid := pid p + 1000; name := name p; state := Started; alive := true;
     restarts := restarts p ++ [kwargs] |}.

#[export] Instance process_api : ProcessAPI := {|
  OS_IS_WINDOWS := false;
  ProcessState := stage;
  ProcessState_value := stage_value;
  ProcessState_name := stage_name;
  ACKED := Acked;
  JOINED := Joined;
  WorkerProcess := process;
  SERVER_LABEL := "Server";
  process_pid := pid;
  process_name := name;
  process_state := state;
  process_is_alive := alive;
  process_start := set_stage Started true;
  process_join := set_stage Joined false;
  process_terminate := set_stage Terminated false;
  process_restart := restarted;
|}.

(** A record of the double, seen as a process of the manager. *)
Definition as_process (p : process) : @WorkerProcess process_api := p.

(** A pid made of the characters of the name. *)
Fixpoint pid_of (s : string) : Z :=
  match s with
  | EmptyString => 0
  | String c s => Z.of_N (N_of_ascii c) + 2 * pid_of s
  end.

Definition fresh (ident : string) : process :=
  {| pid := pid_of ident; name := ident; state := Idle; alive := false;
     restarts := [] |}.

#[export] Instance worker_api : WorkerAPI := {|
  Worker_init ident _ _ _ := {| ident := ident; processes := [fresh ident] |};
|}.

(** A world in which nothing has happened yet. *)
Definition quiet : World :=
  {| worker_state := ∅; inbox := []; script := []; trace := [];
     getpid := 4242 |}.

(** A manager of [n] workers in the quiet world, as constructed and
    after [start]. *)
Definition constructed (n : Z) : State :=
  (__init__ n PNone PNone PNone {| self := blank; world := quiet |}).1.

Definition started (n : Z) : State := (start (constructed n)).1.

(** The record a server process keeps in the shared table. *)
Definition server_record (st : stage) (p : Z) : gmap string pyval :=
  {[ "server" := PBool true; "state" := PStr (stage_name st);
     "pid" := PInt p ]}.

(** Two servers of which only the first ever acknowledges. *)
Definition half_acknowledged : State :=
  {| self := self (constructed 2);
     world := set_worker_state
                (<["Sanic-Server-0-0" := server_record Acked 15973]>
                   (<["Sanic-Server-1-0" := server_record Started 16101]>
                      (worker_state (world (constructed 2)))))
                (world (constructed 2)) |}.

(** Two servers and a durable reloader, started, with messages waiting
    on the channel. *)
Definition serving (q : list Msg) : State :=
  let s := (start (manage "Reloader" PNone PNone false (constructed 2)).1).1 in
  {| self := self s; world := set_inbox q (world s) |}.

(** The manager of [half_acknowledged] after [start], with messages
    waiting on the channel. *)
Definition waiting (q : list Msg) : State :=
  {| self := self (start half_acknowledged).1;
     world := set_inbox q (world (start half_acknowledged).1) |}.

(** A tick in which nothing happens, one in which both servers write
    their record with the given stage, and one in which a message arrives. *)
Definition nothing : Tick :=
  {| writes := []; arrivals := []; interrupted := false |}.

Definition both_write (st : stage) : Tick :=
  {| writes := [("Sanic-Server-0-0", server_record st 15973);
                ("Sanic-Server-1-0", server_record st 16101)];
     arrivals := []; interrupted := false |}.

Definition arrives (msg : Msg) : Tick :=
  {| writes := []; arrivals := [msg]; interrupted := false |}.

(** Two servers and a durable reloader; the servers acknowledge within
    five ticks, then a restart command and the order to terminate arrive. *)
Definition scheduled : State :=
  let s := (manage "Reloader" PNone PNone false (constructed 2)).1 in
  {| self := self s;
     world := set_script
                [nothing; both_write Started; nothing; both_write Acked;
                 nothing; arrives (Some "Server-1 , Server-7:app.py");
                 arrives (Some "__TERMINATE__")]
                (world s) |}.

(** The same processes on Windows. *)
Definition process_api_windows : ProcessAPI := {|
  OS_IS_WINDOWS := true;
  ProcessState := stage;
  ProcessState_value := stage_value;
  ProcessState_name := stage_name;
  ACKED := Acked;
  JOINED := Joined;
  WorkerProcess := process;
  SERVER_LABEL := "Server";
  process_pid := pid;
  process_name := name;
  process_state := state;
  process_is_alive := alive;
  process_start := set_stage Started true;
  process_join := set_stage Joined false;
  process_terminate := set_stage Terminated false;
  process_restart := restarted;
|}.

(** A tick in which the wait is interrupted. *)
Definition interruption : Tick :=
  {| writes := []; arrivals := []; interrupted := true |}.

(** Two started servers whose next poll is interrupted, and a manager on
    Windows in the same situation. *)
Definition interrupted_next : State :=
  {| self := self (started 2);
     world := set_script [interruption] (world (started 2)) |}.

Definition interrupted_next_windows : @State process_api_windows :=
  {| self := {| num_server := 1; context := PNone; transient := [];
                durable := []; terminated := false |};
     world := {| worker_state := ∅; inbox := [];
                 script := [interruption];
                 trace := []; getpid := 4242 |} |}.

End Double.

(** ** The vocabulary of the specification *)

Section Vocabulary.
Context {PAPI : ProcessAPI} {API : WorkerAPI}.

(** A record of the shared table is flagged as a service participant. *)
Definition flagged (r : gmap string pyval) : Prop :=
  truthy (get r "server") = true.

#[global] Instance flagged_dec r : Decision (flagged r).
Proof. unfold flagged. apply _. Defined.

(** The state name of a record is the name of [ProcessState.ACKED]. *)
Definition acknowledged (r : gmap string pyval) : Prop :=
  r !! "state" = Some (PStr (ProcessState_name ACKED)).

(** The record the manager writes for itself. *)
Definition seed (pid : Z) : gmap string pyval := {["pid" := PInt pid]}.

(** The same state with another shared table, inbox or trace. *)
Definition with_table (t : gmap string (gmap string pyval)) (s : State) :=
  {| self := self s; world := set_worker_state t (world s) |}.
Definition with_inbox (q : list Msg) (s : State) :=
  {| self := self s; world := set_inbox q (world s) |}.
Definition with_events (evs : list Event) (s : State) :=
  {| self := self s; world := set_trace (trace (world s) ++ evs) (world s) |}.

(** The workers after each of their processes went through [f]. *)
Definition update_processes (f : WorkerProcess → WorkerProcess)
    (ws : list Worker) : list Worker :=
  (λ w, {| ident := ident w; processes := f <$> processes w |}) <$> ws.

(** The manager after each process of every worker went through [f],
    and after each process of the transient workers did. *)
Definition map_all (f : WorkerProcess → WorkerProcess) (m : WorkerManager) :=
  set_durable (update_processes f (durable m))
    (set_transient (update_processes f (transient m)) m).
Definition map_transient (f : WorkerProcess → WorkerProcess)
    (m : WorkerManager) :=
  set_transient (update_processes f (transient m)) m.

(** [c] called [n] times in a row. *)
Fixpoint times (n : nat) (c : M unit) : M unit :=
  match n with
  | O => ret tt
  | S n => (c;; times n c)%M
  end.

(** The calls a client can make on a manager. *)
Inductive Call :=
| CallManage (ident : string) (func kwargs : pyval) (transient : bool)
| CallRun (fuel : nat)
| CallStart
| CallJoin (fuel : nat)
| CallTerminate
| CallRestart (process_names : option (list string))
    (kwargs : gmap string pyval)
| CallMonitor (fuel : nat)
| CallWaitForAck (fuel : nat)
| CallKill
| CallShutdownSignal (sig : signal.Signals) (frame : pyval)
| CallShutdown
| CallAllWorkersAck.

Definition perform (c : Call) : M unit :=
  match c with
  | CallManage ident func kwargs transient => manage ident func kwargs transient
  | CallRun fuel => run fuel
  | CallStart => start
  | CallJoin fuel => join fuel
  | CallTerminate => terminate
  | CallRestart process_names kwargs => restart process_names kwargs
  | CallMonitor fuel => monitor fuel
  | CallWaitForAck fuel => wait_for_ack fuel
  | CallKill => kill
  | CallShutdownSignal sig frame => shutdown_signal sig frame
  | CallShutdown => shutdown
  | CallAllWorkersAck => (_ ← _all_workers_ack; ret tt)%M
  end.

(** [manage(..., transient=True)] *)
Definition registers_transient (c : Call) : bool :=
  match c with
  | CallManage _ _ _ true => true
  | _ => false
  end.

(** A step of the life of a manager: one of the [allowed] calls, whatever
    its outcome, or any change of the world by the other processes. *)
Inductive step (allowed : Call → Prop) : State → State → Prop :=
| step_call c s : allowed c → step allowed s (perform c s).1
| step_world s w : step allowed s {| self := self s; world := w |}.

(** The calls other than [manage(..., transient=True)]. *)
Definition no_transient_manage (c : Call) : Prop :=
  registers_transient c = false.

(** Any call. *)
Definition any_call (c : Call) : Prop := True.

(** A computation takes the manager to one related to it by [R], whatever
    its outcome. *)
Definition preserves (R : relation WorkerManager) {A} (c : M A) : Prop :=
  ∀ s, R (self s) (self (c s).1).

(** [num_server] and the number of transient workers are the same. *)
Definition same_server_count : relation WorkerManager :=
  λ m m', num_server m' = num_server m
          ∧ length (transient m') = length (transient m).

(** A manager that was terminated still is. *)
Definition stays_terminated : relation WorkerManager :=
  λ m m', terminated m = true → terminated m' = true.

(** The state after one pass of [join], and the states in which a pass
    joins no process. *)
Definition pass (s : State) : State := (join_pass s).1.

Definition quiescent (s : State) : Prop :=
  Forall (λ p, before_JOINED p = false) (all_processes (self s)).

#[global] Instance quiescent_dec s : Decision (quiescent s).
Proof. unfold quiescent. apply _. Defined.

(** The state after one [poll], and [n] polls in a row during which the
    quorum is not reached, no message is waiting and the wait is not
    interrupted. *)
Definition tick (s : State) : State := (poll s).1.

Fixpoint silent (n : nat) (s : State) : bool :=
  match n with
  | O => true
  | S n =>
      match _all_workers_ack s, poll s with
      | (_, Returned false), (s1, Returned false) => silent n s1
      | _, _ => false
      end
  end.

(** [serverCount == len(transient)] *)
Definition server_count_invariant (m : WorkerManager) : Prop :=
  num_server m = Z.of_nat (length (transient m)).

(** A process after [shutdown] went over it. *)
Definition after_shutdown (p : WorkerProcess) : WorkerProcess :=
  if process_is_alive p then process_terminate p else p.

(** A process after [restart] went over it. *)
Definition after_restart (process_names : option (list string))
    (kwargs : gmap string pyval) (p : WorkerProcess) : WorkerProcess :=
  if selected process_names p then process_restart kwargs p else p.

(** A process after a pass of [join] went over it. *)
Definition after_join (p : WorkerProcess) : WorkerProcess :=
  if before_JOINED p then process_join p else p.

(** What a pass of [join] leaves in the trace for one process. *)
Definition join_events (p : WorkerProcess) : list Event :=
  Log (Debug_found (process_pid p) (ProcessState_name (process_state p)))
  :: (if before_JOINED p
      then [Log (Debug_joining (process_pid p)); Join p] else []).

(** What [kill] leaves in the trace for one process. *)
Definition kill_events (p : WorkerProcess) : list Event :=
  [Log (Info_killing (process_name p) (process_pid p));
   OsKill (process_pid p) SIGKILL].

(** The name of the [i]-th server worker. *)
Definition server_name (i : Z) : string := SERVER_LABEL +:+ "-" +:+ pretty i.

(** The world with the record of the manager in the shared table. *)
Definition seeded (w : World) : World :=
  set_worker_state (<["Sanic-Main" := seed (getpid w)]> (worker_state w)) w.

(** The character occurs in the string. *)
Fixpoint occurs (c : ascii) (s : string) : bool :=
  match s with
  | EmptyString => false
  | String c' s' => bool_decide (c' = c) || occurs c s'
  end.

(** The filter that the names part of a message stands for. *)
Definition names_of (processes : string) : option (list string) :=
  let names := strip <$> split "," processes in
  if contains "__ALL_PROCESSES__" names then None else Some names.

(** The state after [shutdown] and after [restart]. *)
Definition shut_down (s : State) : State :=
  {| self := map_all after_shutdown (self s);
     world := set_trace
                (trace (world s)
                 ++ (Terminate <$> filter (λ p, process_is_alive p = true)
                                     (all_processes (self s))))
                (world s) |}.

Definition restarted (process_names : option (list string))
    (kwargs : gmap string pyval) (s : State) : State :=
  {| self := map_transient (after_restart process_names kwargs) (self s);
     world := set_trace
                (trace (world s)
                 ++ ((λ p, Restart p kwargs)
                       <$> filter (λ p, selected process_names p = true)
                             (transient_processes (self s))))
                (world s) |}.

(** [terminated] is the same, and [num_server] is the same. *)
Definition same_terminated : relation WorkerManager :=
  λ m m', terminated m' = terminated m.

Definition same_num_server : relation WorkerManager :=
  λ m m', num_server m' = num_server m.

(** [sep.join(l)] *)
Fixpoint join_with (sep : string) (l : list string) : string :=
  match l with
  | [] => ""
  | [x] => x
  | x :: l => x +:+ sep +:+ join_with sep l
  end.

(** A name that a message can carry as it is: no comma, no colon, no
    white space around it. *)
Definition plain_name (n : string) : Prop :=
  occurs "," n = false ∧ occurs ":" n = false ∧ strip n = n.

(** The next [poll] is not interrupted. *)
Definition calm (s : State) : Prop :=
  match script (world s) with
  | [] => True
  | t :: _ => interrupted t = false
  end.

(** The processes of the durable workers. *)
Definition durable_processes (m : WorkerManager) : list WorkerProcess :=
  durable m ≫= processes.

End Vocabulary.

(** ** Properties *)

Section Quorum.
Context {PAPI : ProcessAPI} {API : WorkerAPI}.

Lemma all_Forall (l : list bool) : all l = true ↔ Forall (λ b, b = true) l.
Proof.
  unfold all. induction l as [|b l IH]; simpl.
  - split; [constructor | done].
  - rewrite andb_true_iff, IH, Forall_cons. by destruct b.
Qed.

Lemma eq_str_acknowledged r :
  eq_str (get r "state") (ProcessState_name ACKED) = true ↔ acknowledged r.
Proof.
  unfold acknowledged, get.
  destruct (r !! "state") as [[]|] eqn:E; simpl;
    rewrite ?bool_decide_eq_true; naive_solver.
Qed.

(** The flagged values of a table are as many as its flagged entries. *)
Lemma length_flagged_values (t : gmap string (gmap string pyval)) :
  length (filter (λ r, truthy (get r "server") = true) (values t))
  = size (filter (λ kr, flagged kr.2) t).
Proof.
  unfold values.
  induction t as [|k r t Hk IH] using map_ind.
  - by rewrite map_filter_empty, map_to_list_empty, map_size_empty.
  - rewrite (map_to_list_insert t k r Hk). simpl.
    rewrite filter_cons. destruct (decide _) as [Hr|Hr].
    + rewrite map_filter_insert_True by done.
      rewrite map_size_insert_None
        by (rewrite map_lookup_filter_None; auto).
      simpl. f_equal. exact IH.
    + rewrite map_filter_insert_not' by naive_solver. done.
Qed.

Lemma elem_of_values (t : gmap string (gmap string pyval)) r :
  r ∈ values t ↔ ∃ k, t !! k = Some r.
Proof.
  unfold values. rewrite list_elem_of_fmap. split.
  - intros [[k r'] [-> H]]. exists k. by apply elem_of_map_to_list.
  - intros [k H]. exists (k, r). split; [done|]. by apply elem_of_map_to_list.
Qed.

(** C1, the quorum predicate: [_all_workers_ack] only reads, it answers
    true exactly when every record flagged as a service participant has
    the acknowledged state name and the flagged records are as many as
    [num_server]; the record the manager seeds for itself carries no flag
    and counts no more than an absent one. *)
Theorem all_workers_ack_quorum (s : State) :
  ∃ b : bool,
    _all_workers_ack s = (s, Returned b)
    ∧ (b = true ↔
         (∀ k r, worker_state (world s) !! k = Some r →
                 flagged r → acknowledged r)
         ∧ Z.of_nat (size (filter (λ kr, flagged kr.2)
                             (worker_state (world s)))) = num_server (self s))
    ∧ (∀ pid,
         (_all_workers_ack
            (with_table (<["Sanic-Main" := seed pid]> (worker_state (world s))) s)).2
         = (_all_workers_ack
              (with_table (delete "Sanic-Main" (worker_state (world s))) s)).2).
Proof.
  assert (Hchar : ∀ s' : State,
    (_all_workers_ack s').2 = Returned
      (all ((λ r, eq_str (get r "state") (ProcessState_name ACKED))
              <$> filter (λ r, truthy (get r "server") = true)
                    (values (worker_state (world s'))))
       && (Z.of_nat (size (filter (λ kr, flagged kr.2)
                             (worker_state (world s'))))
           =? num_server (self s')))).
  { intros s'. unfold _all_workers_ack, bind, get_self, get_world, ret. simpl.
    by rewrite length_fmap, length_flagged_values. }
  set (acked := (λ r, eq_str (get r "state") (ProcessState_name ACKED))
                  <$> filter (λ r, truthy (get r "server") = true)
                        (values (worker_state (world s)))).
  exists (all acked && (Z.of_nat (length acked) =? num_server (self s))).
  split; [reflexivity|]. subst acked. split.
  - rewrite andb_true_iff, all_Forall, Z.eqb_eq, length_fmap,
      length_flagged_values, Forall_fmap, Forall_forall.
    split; intros [Hall Hn]; (split; [|done]).
    + intros k r Hk Hr. apply eq_str_acknowledged.
      apply (Hall r). apply list_elem_of_filter. split; [done|].
      apply elem_of_values. eauto.
    + intros r [Hr [k Hk]%elem_of_values]%list_elem_of_filter. simpl.
      apply eq_str_acknowledged. eauto.
  - intros pid. rewrite !Hchar. simpl.
    assert (Hseed : ¬ flagged (seed pid)) by (by vm_compute).
    set (t := worker_state (world s)).
    assert (Hfilter : filter (λ kr : string * gmap string pyval, flagged kr.2)
                        (<["Sanic-Main" := seed pid]> t)
                      = filter (λ kr, flagged kr.2) (delete "Sanic-Main" t)).
    { rewrite <- (insert_delete_eq t).
      rewrite map_filter_insert_not'.
      + done.
      + exact Hseed.
      + intros y. by rewrite lookup_delete_eq. }
    rewrite Hfilter. f_equal. f_equal.
    (* the flagged values are, up to their order, those of the filtered map *)
    assert (Hvals : ∀ u : gmap string (gmap string pyval),
      filter (λ r, truthy (get r "server") = true) (values u)
      ≡ₚ values (filter (λ kr, flagged kr.2) u)).
    { clear. intros u. unfold values.
      induction u as [|k r u Hk IH] using map_ind.
      - by rewrite map_filter_empty, map_to_list_empty.
      - rewrite (map_to_list_insert u k r Hk). simpl. rewrite filter_cons.
        destruct (decide _) as [Hr|Hr].
        + rewrite map_filter_insert_True by done.
          rewrite map_to_list_insert
            by (rewrite map_lookup_filter_None; auto).
          simpl. apply Permutation_skip. exact IH.
        + by rewrite map_filter_insert_not' by naive_solver. }
    apply eq_true_iff_eq. rewrite !all_Forall, !Forall_fmap.
    by rewrite !Hvals, Hfilter.
Qed.

End Quorum.

(** ** Loops over processes *)

Section Loops.
Context {PAPI : ProcessAPI} {API : WorkerAPI}.

Lemma bind_Returned {A B} (c : M A) (f : A → M B) s s' a :
  c s = (s', Returned a) → bind c f s = f a s'.
Proof. unfold bind. by intros ->. Qed.

Lemma bind_Raised {A B} (c : M A) (f : A → M B) s s' e :
  c s = (s', Raised e) → bind c f s = (s', Raised e).
Proof. unfold bind. by intros ->. Qed.

Lemma bind_Diverged {A B} (c : M A) (f : A → M B) s s' :
  c s = (s', Diverged) → bind c f s = (s', Diverged).
Proof. unfold bind. by intros ->. Qed.

Section Body.
Context {L : Type} (body : Body L).
Context (g : L → WorkerProcess → L) (ev : WorkerProcess → list Event)
        (f : WorkerProcess → WorkerProcess).
Hypothesis body_eq : ∀ acc p, body acc p = (g acc p, ev p, f p).

Lemma for_processes_spec acc ps :
  for_processes body acc ps = (foldl g acc ps, ps ≫= ev, f <$> ps).
Proof.
  revert acc. induction ps as [|p ps IH]; intros acc; [done|].
  simpl. by rewrite body_eq, IH.
Qed.

Lemma for_workers_spec acc ws :
  for_workers body acc ws
  = (foldl g acc (ws ≫= processes), (ws ≫= processes) ≫= ev,
     update_processes f ws).
Proof.
  revert acc. induction ws as [|w ws IH]; intros acc; [done|].
  simpl. rewrite for_processes_spec, IH.
  by rewrite foldl_app, bind_app.
Qed.

Lemma for_each_process_spec acc s :
  for_each_process body acc s
  = ({| self := map_all f (self s);
        world := set_trace
                   (trace (world s) ++ (all_processes (self s) ≫= ev))
                   (world s) |},
     Returned (foldl g acc (all_processes (self s)))).
Proof.
  unfold for_each_process, all_processes, workers.
  rewrite !for_workers_spec. by rewrite !bind_app, foldl_app.
Qed.

Lemma for_each_transient_process_spec acc s :
  for_each_transient_process body acc s
  = ({| self := map_transient f (self s);
        world := set_trace
                   (trace (world s) ++ (transient_processes (self s) ≫= ev))
                   (world s) |},
     Returned (foldl g acc (transient_processes (self s)))).
Proof.
  unfold for_each_transient_process. by rewrite for_workers_spec.
Qed.
End Body.

Lemma length_for_workers {L} (body : Body L) acc ws :
  length (for_workers body acc ws).2 = length ws.
Proof.
  revert acc. induction ws as [|w ws IH]; intros acc; [done|].
  simpl. destruct (for_processes _ _ _) as [[acc1 evs1] ps'].
  specialize (IH acc1). destruct (for_workers _ _ _) as [[acc2 evs2] ws'].
  simpl in *. by rewrite IH.
Qed.

Lemma processes_update (f : WorkerProcess → WorkerProcess) ws :
  update_processes f ws ≫= processes = f <$> (ws ≫= processes).
Proof.
  induction ws as [|w ws IH]; [done|].
  unfold update_processes in *.
  by rewrite fmap_cons, !bind_cons, IH, fmap_app.
Qed.

Lemma all_processes_map_all f m :
  all_processes (map_all f m) = f <$> all_processes m.
Proof.
  unfold all_processes, workers, map_all. simpl.
  by rewrite !bind_app, !processes_update, fmap_app.
Qed.

Lemma bind_singleton {A B} (h : A → B) (l : list A) :
  l ≫= (λ x, [h x]) = h <$> l.
Proof.
  induction l as [|x l IH]; [done|]. by rewrite bind_cons, fmap_cons, IH.
Qed.

Lemma bind_guarded {A B} (c : A → bool) (h : A → B) (l : list A) :
  l ≫= (λ x, if c x then [h x] else []) = h <$> filter (λ x, c x = true) l.
Proof.
  induction l as [|x l IH]; [done|].
  rewrite bind_cons, filter_cons, IH.
  destruct (decide _) as [E|E]; destruct (c x); done.
Qed.

End Loops.

(** ** What the methods over processes do *)

Section Methods.
Context {PAPI : ProcessAPI} {API : WorkerAPI}.

Ltac unit_result :=
  repeat match goal with |- context [foldl ?g ?a ?l] =>
    let u := fresh in generalize (foldl g a l); intros u; destruct u
  end.

Lemma start_spec s :
  start s = ({| self := map_all process_start (self s);
                world := set_trace (trace (world s)
                           ++ (Start <$> all_processes (self s))) (world s) |},
             Returned tt).
Proof.
  unfold start.
  rewrite (for_each_process_spec _ (λ _ _, tt) (λ p, [Start p]) process_start)
    by done.
  rewrite bind_singleton. by unit_result.
Qed.

Lemma shutdown_spec s :
  shutdown s
  = ({| self := map_all after_shutdown (self s);
        world := set_trace
                   (trace (world s)
                    ++ (Terminate <$> filter (λ p, process_is_alive p = true)
                                        (all_processes (self s))))
                   (world s) |},
     Returned tt).
Proof.
  unfold shutdown.
  rewrite (for_each_process_spec _ (λ _ _, tt)
             (λ p, if process_is_alive p then [Terminate p] else [])
             after_shutdown)
    by (intros [] p; unfold after_shutdown; by destruct (process_is_alive p)).
  rewrite bind_guarded. by unit_result.
Qed.

Lemma terminate_spec s :
  terminate s
  = if terminated (self s) then (s, Returned tt)
    else ({| self := set_terminated true (map_all process_terminate (self s));
             world := set_trace
                        (trace (world s)
                         ++ (Terminate <$> all_processes (self s)))
                        (world s) |},
          Returned tt).
Proof.
  unfold terminate, bind, get_self, modify_self, ret.
  destruct (terminated (self s)) eqn:E; simpl.
  - destruct s as [[] ?]. simpl in *. by subst.
  - rewrite (for_each_process_spec _ (λ _ _, tt) (λ p, [Terminate p])
               process_terminate) by done.
    by rewrite bind_singleton.
Qed.

Lemma restart_spec process_names kwargs s :
  restart process_names kwargs s
  = ({| self := map_transient (after_restart process_names kwargs) (self s);
        world := set_trace
                   (trace (world s)
                    ++ ((λ p, Restart p kwargs)
                          <$> filter (λ p, selected process_names p = true)
                                (transient_processes (self s))))
                   (world s) |},
     Returned tt).
Proof.
  unfold restart.
  rewrite (for_each_transient_process_spec _ (λ _ _, tt)
             (λ p, if selected process_names p then [Restart p kwargs] else [])
             (after_restart process_names kwargs))
    by (intros [] p; unfold after_restart;
        by destruct (selected process_names p)).
  rewrite bind_guarded. by unit_result.
Qed.

Lemma map_all_id m : map_all id m = m.
Proof.
  assert (Hid : ∀ ws, update_processes id ws = ws).
  { induction ws as [|[] ws IH]; [done|].
    unfold update_processes in *. rewrite fmap_cons, IH. simpl.
    by rewrite list_fmap_id. }
  unfold map_all. rewrite !Hid. by destruct m.
Qed.

Lemma kill_spec {A} s :
  kill (A:=A) s
  = ({| self := self s;
        world := set_trace
                   (trace (world s) ++ (all_processes (self s) ≫= kill_events))
                   (world s) |},
     Raised ServerKilled).
Proof.
  unfold kill, bind.
  rewrite (for_each_process_spec _ (λ _ _, tt) kill_events id) by done.
  by rewrite map_all_id.
Qed.

Lemma join_pass_spec s :
  join_pass s
  = ({| self := map_all after_join (self s);
        world := set_trace
                   (trace (world s) ++ Log Debug_joining_processes
                    :: (all_processes (self s) ≫= join_events))
                   (world s) |},
     Returned (foldl (λ joined p,
                        if before_JOINED p then {[process_pid p]} ∪ joined
                        else joined)
                 ∅ (all_processes (self s)))).
Proof.
  unfold join_pass, bind, log, emit, modify_world.
  rewrite (for_each_process_spec _
             (λ joined p, if before_JOINED p then {[process_pid p]} ∪ joined
                          else joined)
             join_events after_join)
    by (intros acc p; unfold after_join, join_events;
        by destruct (before_JOINED p)).
  simpl. by rewrite <- app_assoc.
Qed.

(** The set [joined] of a pass is empty exactly when the pass joined no
    process. *)
Lemma joined_empty (ps : list WorkerProcess) (acc : gset Z) :
  foldl (λ joined p, if before_JOINED p then {[process_pid p]} ∪ joined
                     else joined) acc ps = ∅
  ↔ acc = ∅ ∧ Forall (λ p, before_JOINED p = false) ps.
Proof.
  revert acc. induction ps as [|p ps IH]; intros acc; simpl.
  - split; [intros ->; by split | by intros [-> _]].
  - rewrite IH, Forall_cons. destruct (before_JOINED p).
    + split; [|by intros [_ [? _]]].
      intros [Hacc _]. exfalso.
      apply (not_elem_of_empty (C:=gset Z) (process_pid p)).
      rewrite <- Hacc. apply elem_of_union_l, elem_of_singleton. done.
    + tauto.
Qed.

End Methods.

(** ** Relations that every call preserves *)

Section Preserved.
Context {PAPI : ProcessAPI} {API : WorkerAPI}.
Context (R : relation WorkerManager) `{!PreOrder R}.
Hypothesis R_processes : ∀ m ts ds,
  length ts = length (transient m) → R m (set_durable ds (set_transient ts m)).
Hypothesis R_transient_processes : ∀ m ts,
  length ts = length (transient m) → R m (set_transient ts m).
Hypothesis R_terminated : ∀ m, R m (set_terminated true m).
Hypothesis R_durable : ∀ m w, R m (append_durable w m).

Lemma preserves_bind {A B} (c : M A) (f : A → M B) :
  preserves R c → (∀ a, preserves R (f a)) → preserves R (bind c f).
Proof.
  intros Hc Hf s. unfold bind. specialize (Hc s).
  destruct (c s) as [s' [a| |]]; simpl in *; [|done..].
  by etrans; [|apply Hf].
Qed.

Lemma preserves_try {A} (body handler : M A) :
  preserves R body → preserves R handler →
  preserves R (try_except_InterruptedError body handler).
Proof.
  intros Hb Hh s. unfold try_except_InterruptedError. specialize (Hb s).
  destruct (body s) as [s' [a|[]|]]; simpl in *; try done.
  by etrans; [|apply Hh].
Qed.

Lemma preserves_unchanged {A} (c : M A) :
  (∀ s, self (c s).1 = self s) → preserves R c.
Proof. intros Hc s. by rewrite Hc. Qed.

Lemma preserves_ret {A} (a : A) : preserves R (ret a).
Proof. by apply preserves_unchanged. Qed.
Lemma preserves_raise {A} e : preserves R (raise (A:=A) e).
Proof. by apply preserves_unchanged. Qed.
Lemma preserves_diverge {A} : preserves R (diverge (A:=A)).
Proof. by apply preserves_unchanged. Qed.
Lemma preserves_get_self : preserves R get_self.
Proof. by apply preserves_unchanged. Qed.
Lemma preserves_get_world : preserves R get_world.
Proof. by apply preserves_unchanged. Qed.
Lemma preserves_modify_world f : preserves R (modify_world f).
Proof. by apply preserves_unchanged. Qed.
Lemma preserves_emit evs : preserves R (emit evs).
Proof. by apply preserves_unchanged. Qed.
Lemma preserves_log r : preserves R (log r).
Proof. by apply preserves_unchanged. Qed.
Lemma preserves_send msg : preserves R (send msg).
Proof. by apply preserves_unchanged. Qed.

Lemma preserves_poll : preserves R poll.
Proof.
  apply preserves_unchanged. intros s. unfold poll.
  destruct (script (world s)) as [|t sc]; [done|]. by destruct (interrupted t).
Qed.

Lemma preserves_recv : preserves R recv.
Proof.
  apply preserves_unchanged. intros s. unfold recv.
  by destruct (inbox (world s)).
Qed.

Lemma preserves_set_terminated : preserves R (modify_self (set_terminated true)).
Proof. intros s. apply R_terminated. Qed.

Lemma preserves_append_durable w : preserves R (modify_self (append_durable w)).
Proof. intros s. apply R_durable. Qed.

Lemma preserves_for_each_process {L} (body : Body L) acc :
  preserves R (for_each_process body acc).
Proof.
  intros s. unfold for_each_process.
  pose proof (length_for_workers body acc (transient (self s))) as Hlen.
  destruct (for_workers body acc (transient (self s))) as [[acc1 evs1] ts].
  destruct (for_workers body acc1 (durable (self s))) as [[acc2 evs2] ds].
  by apply R_processes.
Qed.

Lemma preserves_for_each_transient_process {L} (body : Body L) acc :
  preserves R (for_each_transient_process body acc).
Proof.
  intros s. unfold for_each_transient_process.
  pose proof (length_for_workers body acc (transient (self s))) as Hlen.
  destruct (for_workers body acc (transient (self s))) as [[acc1 evs1] ts].
  by apply R_transient_processes.
Qed.

Create HintDb preserves.
Hint Resolve preserves_ret preserves_raise preserves_diverge preserves_get_self
  preserves_get_world preserves_modify_world preserves_emit preserves_log
  preserves_send preserves_set_terminated preserves_append_durable
  preserves_poll preserves_recv preserves_for_each_process
  preserves_for_each_transient_process : preserves.

(** Goes through the binds and the branches of a method. *)
Ltac preserves_step :=
  match goal with
  | |- preserves _ (bind _ _) => apply preserves_bind; [|intros ?]
  | |- preserves _ (try_except_InterruptedError _ _) => apply preserves_try
  | |- preserves _ (if ?b then _ else _) => destruct b
  | |- preserves _ (match ?c with Break => _ | Continue => _ end) => destruct c
  | |- preserves _ (let '(_, _) := ?p in _) => destruct p
  | |- preserves _ _ => solve [eauto with preserves]
  end.
Ltac preserves_method := repeat preserves_step.

Lemma preserves_shutdown : preserves R shutdown.
Proof. unfold shutdown. preserves_method. Qed.
Lemma preserves_start : preserves R start.
Proof. unfold start. preserves_method. Qed.
Lemma preserves_restart names kwargs : preserves R (restart names kwargs).
Proof. unfold restart. preserves_method. Qed.
Lemma preserves_terminate : preserves R terminate.
Proof. unfold terminate. preserves_method. Qed.
Lemma preserves_kill {A} : preserves R (kill (A:=A)).
Proof. unfold kill. preserves_method. Qed.
Lemma preserves_all_workers_ack : preserves R _all_workers_ack.
Proof. unfold _all_workers_ack. preserves_method. Qed.
Hint Resolve preserves_shutdown preserves_start preserves_restart
  preserves_terminate preserves_kill preserves_all_workers_ack : preserves.

Lemma preserves_shutdown_signal sig frame :
  preserves R (shutdown_signal sig frame).
Proof. unfold shutdown_signal. preserves_method. Qed.

Lemma preserves_join fuel : preserves R (join fuel).
Proof.
  induction fuel as [|fuel IH]; simpl; [apply preserves_diverge|].
  unfold join_pass. preserves_method.
Qed.

Lemma preserves_wait_for_ack_loop fuel misses message :
  preserves R (wait_for_ack_loop fuel misses message).
Proof.
  revert misses message.
  induction fuel as [|fuel IH]; intros misses message; simpl;
    [apply preserves_diverge|].
  unfold count_miss. preserves_method.
Qed.

Lemma preserves_monitor_loop fuel : preserves R (monitor_loop fuel).
Proof.
  induction fuel as [|fuel IH]; simpl; [apply preserves_diverge|].
  unfold monitor_body. preserves_method.
Qed.
Hint Resolve preserves_shutdown_signal preserves_join
  preserves_wait_for_ack_loop preserves_monitor_loop : preserves.

Lemma preserves_perform c : no_transient_manage c → preserves R (perform c).
Proof.
  unfold no_transient_manage.
  destruct c as [ident func kwargs [] | | | | | | | | | | | ]; try done;
    intros _; simpl;
    unfold manage, run, monitor, wait_for_ack; preserves_method.
Qed.

Lemma steps_preserve (allowed : Call → Prop) s s' :
  (∀ c, allowed c → preserves R (perform c)) →
  rtc (step allowed) s s' → R (self s) (self s').
Proof.
  intros Hallowed. induction 1 as [|s1 s2 s3 H12 _ IH]; [done|].
  etrans; [|exact IH]. destruct H12 as [c s0 Hc | s0 w]; [|done].
  by apply Hallowed.
Qed.

End Preserved.

(** The two relations of interest are preserved. *)
Section Relations.
Context {PAPI : ProcessAPI} {API : WorkerAPI}.

#[local] Instance same_server_count_preorder : PreOrder same_server_count.
Proof.
  split.
  - by intros m.
  - intros m1 m2 m3 [H1 H2] [H3 H4]. split; congruence.
Qed.

#[local] Instance stays_terminated_preorder : PreOrder stays_terminated.
Proof.
  split.
  - intros m H. exact H.
  - intros m1 m2 m3 H1 H2 H. by apply H2, H1.
Qed.

Lemma perform_same_server_count c :
  no_transient_manage c → preserves same_server_count (perform c).
Proof.
  apply (preserves_perform same_server_count); intros;
    unfold same_server_count; simpl; auto.
Qed.

Lemma perform_stays_terminated c : preserves stays_terminated (perform c).
Proof.
  destruct (registers_transient c) eqn:Hc.
  - destruct c as [ident func kwargs [] | | | | | | | | | | | ]; try done.
    intros s H. exact H.
  - apply (preserves_perform stays_terminated); try done; intros;
      unfold stays_terminated; simpl; auto.
Qed.

Lemma steps_same_server_count s s' :
  rtc (step no_transient_manage) s s' → same_server_count (self s) (self s').
Proof.
  apply (steps_preserve same_server_count). apply perform_same_server_count.
Qed.

Lemma steps_stay_terminated s s' :
  rtc (step any_call) s s' → stays_terminated (self s) (self s').
Proof.
  apply (steps_preserve stays_terminated). intros c _.
  apply perform_stays_terminated.
Qed.

End Relations.

(** ** Termination requests *)

Section Terminate.
Context {PAPI : ProcessAPI} {API : WorkerAPI}.

Lemma terminate_again s :
  terminated (self s) = true → terminate s = (s, Returned tt).
Proof. intros E. by rewrite terminate_spec, E. Qed.

Lemma times_terminate_again n s :
  terminated (self s) = true → times n terminate s = (s, Returned tt).
Proof.
  intros E. induction n as [|n IH]; [done|].
  simpl. by rewrite (bind_Returned _ _ _ _ _ (terminate_again s E)).
Qed.

(** C4, [terminate] is idempotent: on a manager that is not yet
    terminated, any positive number of calls in a row returns normally,
    leaves exactly one terminate request per process, in the order of
    [processes], and sets the flag; a call never raises, and a call on a
    terminated manager changes nothing.  No call resets the flag: after a
    first [terminate], whatever calls are made and whatever the other
    processes do, a further [terminate] sends no request. *)
Theorem terminate_idempotent (n : nat) (s : State) :
  terminated (self s) = false →
  (0 < n)%nat →
  times n terminate s
  = ({| self := set_terminated true (map_all process_terminate (self s));
        world := set_trace
                   (trace (world s) ++ (Terminate <$> all_processes (self s)))
                   (world s) |},
     Returned tt)
  ∧ (∀ s0, ∃ s1, terminate s0 = (s1, Returned tt)
                 ∧ terminated (self s1) = true)
  ∧ (∀ s0, terminated (self s0) = true → terminate s0 = (s0, Returned tt))
  ∧ (∀ s0 s1, terminated (self s0) = true → rtc (step any_call) s0 s1 →
              terminate s1 = (s1, Returned tt)).
Proof.
  intros E Hn. split; [|split; [|split]].
  - destruct n as [|n]; [lia|]. simpl.
    erewrite bind_Returned; [|by rewrite terminate_spec, E].
    by apply times_terminate_again.
  - intros s0. rewrite terminate_spec.
    destruct (terminated (self s0)) eqn:E0; eauto.
  - apply terminate_again.
  - intros s0 s1 E0 Hsteps. apply terminate_again.
    by apply (steps_stay_terminated s0 s1).
Qed.

(** C10, [shutdown] and the flag: [shutdown] requests termination of
    the processes that are alive, in the order of [processes], and leaves
    [terminated] as it was; on a manager not yet terminated, a later
    [terminate] still sends a request to every process, so that a process
    that was alive at the shutdown gets a second request. *)
Theorem shutdown_keeps_terminate_armed (s : State) :
  terminated (self s) = false →
  ∃ s1 s2,
    shutdown s = (s1, Returned tt)
    ∧ terminated (self s1) = terminated (self s)
    ∧ all_processes (self s1) = after_shutdown <$> all_processes (self s)
    ∧ trace (world s1)
      = trace (world s)
        ++ (Terminate <$> filter (λ p, process_is_alive p = true)
                            (all_processes (self s)))
    ∧ terminate s1 = (s2, Returned tt)
    ∧ trace (world s2)
      = trace (world s1) ++ (Terminate <$> all_processes (self s1))
    ∧ (∀ p, p ∈ all_processes (self s) → process_is_alive p = true →
            Terminate p ∈ trace (world s1)
            ∧ Terminate (process_terminate p)
                ∈ Terminate <$> all_processes (self s1)).
Proof.
  intros E. rewrite shutdown_spec. eexists. eexists.
  split; [reflexivity|]. simpl.
  split; [by destruct (self s)|].
  split; [apply all_processes_map_all|].
  split; [done|].
  rewrite terminate_spec. simpl. rewrite E.
  split; [reflexivity|]. simpl.
  split; [done|].
  intros p Hp Halive. split.
  - apply elem_of_app. right. apply list_elem_of_fmap.
    exists p. split; [done|]. by apply list_elem_of_filter.
  - apply list_elem_of_fmap. eexists. split; [reflexivity|].
    rewrite all_processes_map_all. apply list_elem_of_fmap.
    exists p. split; [|done]. unfold after_shutdown. by rewrite Halive.
Qed.

End Terminate.

(** Two calls of [terminate] on two started servers of the test double. *)
Lemma terminate_idempotent_witness :
  times 2 terminate (Double.started 2)
  = ({| self := set_terminated true
                  (map_all process_terminate (self (Double.started 2)));
        world := set_trace
                   (trace (world (Double.started 2))
                    ++ (Terminate <$> all_processes (self (Double.started 2))))
                   (world (Double.started 2)) |},
     Returned tt).
Proof.
  destruct (terminate_idempotent (API:=Double.worker_api) 2 (Double.started 2))
    as [Htwice _]; [reflexivity | lia | exact Htwice].
Defined.

(** [shutdown], then [terminate], on one started server of the test double:
    the server is asked to terminate twice. *)
Lemma shutdown_keeps_terminate_armed_witness :
  ∃ s1 s2,
    shutdown (Double.started 1) = (s1, Returned tt)
    ∧ terminate s1 = (s2, Returned tt)
    ∧ Terminate (Double.as_process
                   (Double.set_stage Double.Started true
                      (Double.fresh "Server-0")))
        ∈ trace (world s1)
    ∧ Terminate (Double.as_process
                   (Double.set_stage Double.Terminated false
                      (Double.fresh "Server-0")))
        ∈ Terminate <$> all_processes (self s1).
Proof.
  destruct (shutdown_keeps_terminate_armed (Double.started 1) eq_refl)
    as (s1 & s2 & H1 & _ & _ & _ & H2 & _ & H3).
  exists s1, s2. split; [exact H1|]. split; [exact H2|].
  apply (H3 (Double.as_process
               (Double.set_stage Double.Started true (Double.fresh "Server-0")))).
  - vm_compute. apply list_elem_of_here.
  - reflexivity.
Defined.

(** ** Restart *)

Section Restart.
Context {PAPI : ProcessAPI} {API : WorkerAPI}.

Lemma selected_iff process_names (p : WorkerProcess) :
  selected process_names p = true
  ↔ process_names = None ∨ process_names = Some []
    ∨ ∃ names, process_names = Some names ∧ process_name p ∈ names.
Proof.
  unfold selected, contains. destruct process_names as [names|].
  - rewrite orb_true_iff, bool_decide_eq_true. split.
    + intros [Hn|Hn].
      * destruct names; [auto|discriminate Hn].
      * right. right. eauto.
    + intros [Hn|[Hn|(names' & Hn & Hin)]].
      * discriminate Hn.
      * injection Hn as ->. by left.
      * injection Hn as ->. by right.
  - split; auto.
Qed.

(** C5, [restart]: it goes over the processes of the transient workers
    only, in their order; a process is restarted, with the keyword
    arguments as they were given, exactly when the filter is absent or
    empty or holds the name of the process; the durable workers are left
    as they are and nothing else is changed or called. *)
Theorem restart_only_transient
    (process_names : option (list string)) (kwargs : gmap string pyval)
    (s : State) :
  restart process_names kwargs s
  = ({| self := map_transient (after_restart process_names kwargs) (self s);
        world := set_trace
                   (trace (world s)
                    ++ ((λ p, Restart p kwargs)
                          <$> filter (λ p, selected process_names p = true)
                                (transient_processes (self s))))
                   (world s) |},
     Returned tt)
  ∧ durable (self (restart process_names kwargs s).1) = durable (self s)
  ∧ (∀ p, after_restart process_names kwargs p
          = if selected process_names p then process_restart kwargs p else p)
  ∧ (∀ p, selected process_names p = true
          ↔ process_names = None ∨ process_names = Some []
            ∨ ∃ names, process_names = Some names ∧ process_name p ∈ names).
Proof.
  rewrite restart_spec. split; [done|]. split; [done|]. split; [done|].
  apply selected_iff.
Qed.

End Restart.

(** ** Construction *)

Section Construction.
Context {PAPI : ProcessAPI} {API : WorkerAPI}.

Lemma manage_spec ident func kwargs tr s :
  manage ident func kwargs tr s
  = (let w := Worker_init ident func kwargs (context (self s)) in
     {| self := (if tr then append_transient w else append_durable w) (self s);
        world := set_trace (trace (world s) ++ [Created w]) (world s) |},
     Returned tt).
Proof. done. Qed.

Lemma for_in_manage serve server_settings (l : list Z) s :
  for_in l (λ i, manage (server_name i) serve server_settings true) s
  = (let ws := (λ i, Worker_init (server_name i) serve server_settings
                       (context (self s))) <$> l in
     {| self := set_transient (transient (self s) ++ ws) (self s);
        world := set_trace (trace (world s) ++ (Created <$> ws)) (world s) |},
     Returned tt).
Proof.
  revert s. induction l as [|i l IH]; intros [[] []]; simpl.
  - unfold ret, set_transient, set_trace. simpl. by rewrite !app_nil_r.
  - unfold bind. rewrite manage_spec. simpl. rewrite IH. simpl.
    unfold set_transient, set_trace. simpl. by rewrite <- !app_assoc.
Qed.

Lemma length_range n : Z.of_nat (length (range n)) = Z.max 0 n.
Proof. unfold range. rewrite length_fmap, length_seq. lia. Qed.

(** [__init__] on a new object, for a number of workers other than 0. *)
Lemma init_spec number serve server_settings ctx w :
  number ≠ 0 →
  __init__ number serve server_settings ctx {| self := blank; world := w |}
  = (let ws := (λ i, Worker_init (server_name i) serve server_settings ctx)
                 <$> range number in
     {| self := {| num_server := number; context := ctx; transient := ws;
                   durable := []; terminated := false |};
        world := set_trace
                   (trace w ++ (Created <$> ws)
                    ++ [SignalFunc signal.SIGINT; SignalFunc signal.SIGTERM])
                   (seeded w) |},
     Returned tt).
Proof.
  intros Hn. unfold __init__, bind, modify_self, modify_world, get_world,
    emit, raise, ret. simpl.
  destruct (Z.eqb_spec number 0) as [|_]; [congruence|].
  rewrite for_in_manage. simpl.
  unfold modify_world, set_trace, set_transient, seeded, set_worker_state.
  simpl. by rewrite <- !app_assoc.
Qed.

(** [__init__] on a new object, for no workers. *)
Lemma init_zero serve server_settings ctx w :
  __init__ 0 serve server_settings ctx {| self := blank; world := w |}
  = ({| self := {| num_server := 0; context := ctx; transient := [];
                   durable := []; terminated := false |};
        world := seeded w |},
     Raised (RuntimeError "Cannot serve with no workers")).
Proof. done. Qed.

(** C2, construction without workers: with [number = 0] the constructor
    raises the configuration error, no worker has been created, no
    process started and no signal handler installed (the trace is as it
    was).  The record of the manager is written into the shared table
    before the number is looked at: whatever the number, success or
    failure, the table holds it after the call. *)
Theorem construction_without_workers
    (serve server_settings ctx : pyval) (w : World) :
  new_WorkerManager 0 serve server_settings ctx w
  = (seeded w, Raised (RuntimeError "Cannot serve with no workers"))
  ∧ trace (new_WorkerManager 0 serve server_settings ctx w).1 = trace w
  ∧ (∀ number,
       worker_state (new_WorkerManager number serve server_settings ctx w).1
       = <["Sanic-Main" := seed (getpid w)]> (worker_state w)).
Proof.
  split; [|split].
  - unfold new_WorkerManager. by rewrite init_zero.
  - unfold new_WorkerManager. by rewrite init_zero.
  - intros number. unfold new_WorkerManager.
    destruct (decide (number = 0)) as [->|Hn].
    + by rewrite init_zero.
    + by rewrite init_spec.
Qed.

End Construction.

(** Against the claim that the shared table is unchanged when construction
    fails: the failed construction has already written the record. *)
Lemma construction_failure_writes_table :
  (new_WorkerManager (API:=Double.worker_api) 0 PNone PNone PNone Double.quiet).2
  = Raised (RuntimeError "Cannot serve with no workers")
  ∧ worker_state (new_WorkerManager (API:=Double.worker_api) 0 PNone PNone PNone Double.quiet).1
    ≠ worker_state Double.quiet
  ∧ worker_state (new_WorkerManager (API:=Double.worker_api) 0 PNone PNone PNone Double.quiet).1
      !! "Sanic-Main" = Some {["pid" := PInt 4242]}.
Proof.
  split; [reflexivity|]. split; [|reflexivity].
  intros H. apply (f_equal (λ t, t !! "Sanic-Main")) in H. vm_compute in H.
  discriminate H.
Qed.

(** ** The number of servers and the transient workers *)

Section ServerCount.
Context {PAPI : ProcessAPI} {API : WorkerAPI}.

(** C3, the number of servers: for [number >= 1] the constructor returns
    a manager with exactly [number] transient workers and no durable
    one, and [num_server] is the length of [transient]; this stays so
    along every sequence of calls that are not
    [manage(..., transient=True)], interleaved with any changes of the
    world.  [manage(..., transient=True)] adds a transient worker and
    leaves [num_server] as it is. *)
Theorem server_count_after_construction
    (number : Z) (serve server_settings ctx : pyval) (w : World) :
  1 ≤ number →
  ∃ w' m,
    new_WorkerManager number serve server_settings ctx w = (w', Returned m)
    ∧ Z.of_nat (length (transient m)) = number
    ∧ durable m = []
    ∧ server_count_invariant m
    ∧ (∀ s s', self s = m → rtc (step no_transient_manage) s s' →
               server_count_invariant (self s')
               ∧ Z.of_nat (length (transient (self s'))) = number)
    ∧ (∀ s ident func kwargs,
         num_server (self (manage ident func kwargs true s).1)
         = num_server (self s)
         ∧ length (transient (self (manage ident func kwargs true s).1))
           = S (length (transient (self s)))).
Proof.
  intros Hn. unfold new_WorkerManager.
  rewrite init_spec by lia. simpl. eexists. eexists.
  split; [reflexivity|].
  assert (Hlen : Z.of_nat (length ((λ i, Worker_init (server_name i) serve
                    server_settings ctx) <$> range number)) = number)
    by (rewrite length_fmap, length_range; lia).
  split; [exact Hlen|]. split; [done|].
  split; [unfold server_count_invariant; simpl; lia|].
  split.
  - intros s s' Hs Hsteps.
    destruct (steps_same_server_count _ _ Hsteps) as [Hnum Hl].
    unfold server_count_invariant. rewrite Hnum, Hl, Hs. simpl. lia.
  - intros s ident func kwargs. simpl.
    split; [done|]. rewrite length_app. simpl. lia.
Qed.

End ServerCount.

(** Construction for two servers on the test double. *)
Lemma server_count_after_construction_witness :
  ∃ w' m,
    new_WorkerManager (API:=Double.worker_api) 2 PNone PNone PNone Double.quiet
    = (w', Returned m)
    ∧ Z.of_nat (length (transient m)) = 2
    ∧ durable m = []
    ∧ server_count_invariant m.
Proof.
  destruct (server_count_after_construction (API:=Double.worker_api)
              2 PNone PNone PNone Double.quiet ltac:(lia))
    as (w' & m & H1 & H2 & H3 & H4 & _).
  exists w', m. auto.
Defined.

(** Against the claim that the equation of [num_server] and the length of
    [transient] survives every later call: registering one more transient
    worker on a manager constructed for one server. *)
Lemma manage_transient_breaks_server_count :
  server_count_invariant (self (Double.constructed 1))
  ∧ ¬ server_count_invariant
        (self (perform (API:=Double.worker_api)
                 (CallManage "Sanic-Extra" PNone PNone true)
                 (Double.constructed 1)).1)
  ∧ length (transient
              (self (perform (API:=Double.worker_api)
                       (CallManage "Sanic-Extra" PNone PNone true)
                       (Double.constructed 1)).1)) = 2%nat
  ∧ num_server
      (self (perform (API:=Double.worker_api)
               (CallManage "Sanic-Extra" PNone PNone true)
               (Double.constructed 1)).1) = 1.
Proof.
  split; [reflexivity|]. split; [|split; reflexivity].
  intros H. vm_compute in H. discriminate H.
Qed.

(** ** Joining *)

Section Join.
Context {PAPI : ProcessAPI} {API : WorkerAPI}.

Lemma join_pass_joined s :
  ∃ joined, join_pass s = (pass s, Returned joined)
            ∧ (joined = ∅ ↔ quiescent s).
Proof.
  unfold pass. rewrite join_pass_spec. eexists. split; [reflexivity|].
  rewrite joined_empty. unfold quiescent. tauto.
Qed.

Lemma join_unfold fuel s :
  join (S fuel) s
  = if decide (quiescent s) then (pass s, Returned tt) else join fuel (pass s).
Proof.
  destruct (join_pass_joined s) as (joined & Hpass & Hjoined).
  simpl. rewrite (bind_Returned _ _ _ _ _ Hpass).
  destruct (decide (quiescent s)) as [Hq|Hq].
  - rewrite bool_decide_eq_false_2; [done|]. intros Hne. by apply Hne, Hjoined.
  - rewrite bool_decide_eq_true_2; [done|]. intros He. by apply Hq, Hjoined.
Qed.

Lemma join_returns_iff fuel s s' :
  join fuel s = (s', Returned tt)
  ↔ ∃ k, (k < fuel)%nat
         ∧ (∀ j, (j < k)%nat → ¬ quiescent (Nat.iter j pass s))
         ∧ quiescent (Nat.iter k pass s)
         ∧ s' = Nat.iter (S k) pass s.
Proof.
  revert s. induction fuel as [|fuel IH]; intros s.
  - simpl. unfold diverge. split; [done|]. intros (k & Hk & _). lia.
  - rewrite join_unfold. destruct (decide (quiescent s)) as [Hq|Hq].
    + split.
      * intros [= <-]. exists 0%nat. split; [lia|].
        split; [intros j Hj; lia|]. done.
      * intros (k & _ & Hbefore & _ & ->). destruct k as [|k]; [done|].
        destruct (Hbefore 0%nat); [lia|done].
    + assert (Hshift : ∀ n, Nat.iter n pass (pass s) = Nat.iter (S n) pass s)
        by (intros n; by rewrite Nat.iter_succ_r).
      rewrite IH. split.
      * intros (k & Hk & Hbefore & Hat & ->). exists (S k).
        split; [lia|]. split; [|split].
        -- intros [|j] Hj; [done|]. rewrite <- Hshift. apply Hbefore. lia.
        -- by rewrite <- Hshift.
        -- by rewrite <- Hshift.
      * intros (k & Hk & Hbefore & Hat & ->). destruct k as [|k]; [done|].
        exists k. split; [lia|]. split; [|split].
        -- intros j Hj. rewrite Hshift. apply Hbefore. lia.
        -- by rewrite Hshift.
        -- by rewrite Hshift.
Qed.

Lemma join_never_raises fuel s s' e : join fuel s ≠ (s', Raised e).
Proof.
  revert s. induction fuel as [|fuel IH]; intros s; [done|].
  rewrite join_unfold. destruct (decide _); [done|apply IH].
Qed.

Lemma quiescent_pass s :
  (∀ p, before_JOINED (process_join p) = false) → quiescent (pass s).
Proof.
  intros Hjoin. unfold quiescent, pass. rewrite join_pass_spec. simpl.
  rewrite all_processes_map_all, Forall_fmap. apply Forall_forall.
  intros p _. simpl. unfold after_join.
  destruct (before_JOINED p) eqn:E; [apply Hjoin|exact E].
Qed.

(** C9, [join]: a pass goes over all processes, in their order, joins
    every process whose state is below [JOINED] and none other, and
    collects the joined pids; the call repeats the pass when one was
    joined and returns when none was.  So it returns exactly after the
    first pass that finds no process to join (when the fuel reaches that
    far), it never raises, and when a joined process is no longer below
    [JOINED] the second pass at the latest is the last. *)
Theorem join_until_no_join (fuel : nat) (s : State) :
  (∃ joined,
     join_pass s
     = ({| self := map_all after_join (self s);
           world := set_trace
                      (trace (world s) ++ Log Debug_joining_processes
                       :: (all_processes (self s) ≫= join_events))
                      (world s) |},
        Returned joined)
     ∧ (joined = ∅ ↔ quiescent s))
  ∧ join (S fuel) s
    = (if decide (quiescent s) then (pass s, Returned tt)
       else join fuel (pass s))
  ∧ (∀ s', join fuel s = (s', Returned tt)
           ↔ ∃ k, (k < fuel)%nat
                  ∧ (∀ j, (j < k)%nat → ¬ quiescent (Nat.iter j pass s))
                  ∧ quiescent (Nat.iter k pass s)
                  ∧ s' = Nat.iter (S k) pass s)
  ∧ (∀ s' e, join fuel s ≠ (s', Raised e))
  ∧ ((∀ p, before_JOINED (process_join p) = false) →
     join (2 + fuel) s
     = (if decide (quiescent s) then pass s else pass (pass s), Returned tt)).
Proof.
  split; [|split; [|split; [|split]]].
  - destruct (join_pass_joined s) as (joined & Hpass & Hjoined).
    exists joined. split; [|done]. rewrite Hpass. unfold pass.
    by rewrite join_pass_spec.
  - apply join_unfold.
  - intros s'. apply join_returns_iff.
  - intros s' e. apply join_never_raises.
  - intros Hjoin. change (2 + fuel)%nat with (S (S fuel)).
    rewrite join_unfold. destruct (decide (quiescent s)); [done|].
    rewrite join_unfold. rewrite decide_True; [done|].
    by apply quiescent_pass.
Qed.

End Join.

(** ** The acknowledgement barrier *)

Section Barrier.
Context {PAPI : ProcessAPI} {API : WorkerAPI}.

Lemma with_events_kill {A} s :
  kill (A:=A) s
  = (with_events (all_processes (self s) ≫= kill_events) s, Raised ServerKilled).
Proof. by rewrite kill_spec. Qed.

Lemma count_miss_spec again misses message s :
  count_miss again misses message s
  = if misses + 1 >? THRESHOLD
    then (with_events (Log (Error_not_all_acknowledged message)
                       :: (all_processes (self s) ≫= kill_events)) s,
          Raised ServerKilled)
    else again (misses + 1) message s.
Proof.
  unfold count_miss. destruct (misses + 1 >? THRESHOLD); [|done].
  unfold bind, log, emit, modify_world. simpl. rewrite kill_spec.
  unfold with_events. simpl. by rewrite <- app_assoc.
Qed.

Lemma all_workers_ack_reads s : (_all_workers_ack s).1 = s.
Proof. done. Qed.

Lemma poll_self s : self (poll s).1 = self s.
Proof.
  unfold poll. destruct (script (world s)) as [|t sc]; [done|].
  by destruct (interrupted t).
Qed.

Lemma poll_trace s : trace (world (poll s).1) = trace (world s).
Proof.
  unfold poll. destruct (script (world s)) as [|t sc]; [done|].
  by destruct (interrupted t).
Qed.

Lemma tick_self s : self (tick s) = self s.
Proof. apply poll_self. Qed.

Lemma tick_trace s : trace (world (tick s)) = trace (world s).
Proof. apply poll_trace. Qed.

Lemma iter_tick_self n s : self (Nat.iter n tick s) = self s.
Proof.
  induction n as [|n IH]; [done|].
  change (Nat.iter (S n) tick s) with (tick (Nat.iter n tick s)).
  by rewrite tick_self.
Qed.

Lemma iter_tick_trace n s :
  trace (world (Nat.iter n tick s)) = trace (world s).
Proof.
  induction n as [|n IH]; [done|].
  change (Nat.iter (S n) tick s) with (tick (Nat.iter n tick s)).
  by rewrite tick_trace.
Qed.

(** One iteration of the barrier in which a message is received. *)
Lemma wait_for_ack_receive fuel misses message s s1 msg q :
  _all_workers_ack s = (s, Returned false) →
  poll s = (s1, Returned true) →
  inbox (world s1) = msg :: q →
  wait_for_ack_loop (S fuel) misses message s
  = if decide (msg = Some "__TERMINATE_EARLY__")
    then (with_events (Log (Error_not_all_acknowledged message_early)
                       :: (all_processes (self s1) ≫= kill_events))
            (with_inbox q s1),
          Raised ServerKilled)
    else wait_for_ack_loop fuel misses message (with_inbox (q ++ [msg]) s1).
Proof.
  intros Hack Hpoll Hinbox. simpl.
  rewrite (bind_Returned _ _ _ _ _ Hack). simpl.
  rewrite (bind_Returned _ _ _ _ _ Hpoll). simpl.
  assert (Hrecv : recv s1 = (with_inbox q s1, Returned msg))
    by (unfold recv; by rewrite Hinbox).
  rewrite (bind_Returned _ _ _ _ _ Hrecv).
  destruct (decide (msg = Some "__TERMINATE_EARLY__")) as [->|Hne].
  - simpl. rewrite count_miss_spec. done.
  - rewrite bool_decide_eq_false_2 by done. simpl.
    unfold bind, send, modify_world. simpl. done.
Qed.

(** One iteration of the barrier in which no message is waiting. *)
Lemma wait_for_ack_miss fuel misses message s s1 :
  _all_workers_ack s = (s, Returned false) →
  poll s = (s1, Returned false) →
  wait_for_ack_loop (S fuel) misses message s
  = if misses + 1 >? THRESHOLD
    then (with_events (Log (Error_not_all_acknowledged message)
                       :: (all_processes (self s1) ≫= kill_events)) s1,
          Raised ServerKilled)
    else wait_for_ack_loop fuel (misses + 1) message s1.
Proof.
  intros Hack Hpoll. simpl.
  rewrite (bind_Returned _ _ _ _ _ Hack). simpl.
  rewrite (bind_Returned _ _ _ _ _ Hpoll). simpl.
  by rewrite count_miss_spec.
Qed.

Lemma silent_S n s :
  silent (S n) s = true →
  _all_workers_ack s = (s, Returned false)
  ∧ poll s = (tick s, Returned false)
  ∧ silent n (tick s) = true.
Proof.
  cbn [silent]. unfold tick. pose proof (all_workers_ack_reads s) as Hs.
  destruct (_all_workers_ack s) as [s0 [[]| |]]; try done.
  destruct (poll s) as [s1 [[]| |]]; try done.
  simpl in Hs. by subst.
Qed.

(** The barrier from [misses] on, through polls that are all missed. *)
Lemma wait_for_ack_silent n fuel misses message s :
  misses + Z.of_nat n = THRESHOLD →
  silent (S n) s = true →
  wait_for_ack_loop (S n + fuel) misses message s
  = (with_events (Log (Error_not_all_acknowledged message)
                  :: (all_processes (self s) ≫= kill_events))
       (Nat.iter (S n) tick s),
     Raised ServerKilled).
Proof.
  revert misses s. induction n as [|n IH]; intros misses s Hm Hsilent;
    destruct (silent_S _ _ Hsilent) as (Hack & Hpoll & Hrest).
  - change (1 + fuel)%nat with (S fuel).
    rewrite (wait_for_ack_miss _ _ _ _ _ Hack Hpoll).
    destruct (Z.gtb_spec (misses + 1) THRESHOLD) as [_|Hle]; [|lia].
    change (Nat.iter 1 tick s) with (tick s). by rewrite tick_self.
  - change (S (S n) + fuel)%nat with (S (S n + fuel)).
    rewrite (wait_for_ack_miss _ _ _ _ _ Hack Hpoll).
    destruct (Z.gtb_spec (misses + 1) THRESHOLD) as [Hgt|_]; [lia|].
    rewrite IH by (done || lia).
    by rewrite (Nat.iter_succ_r (S n)), tick_self.
Qed.

Lemma run_raises_with_barrier fuel s s' e :
  wait_for_ack fuel (start s).1 = (s', Raised e) →
  run fuel s = (s', Raised e).
Proof.
  intros Hwait. unfold run, monitor.
  rewrite (bind_Returned start _ s (start s).1 tt) by (by rewrite start_spec).
  apply bind_Raised. by apply bind_Raised.
Qed.

(** C7, the early termination sentinel: in an iteration of the barrier
    that receives a message, whatever the count of misses so far,
    ["__TERMINATE_EARLY__"] makes this very iteration log the diagnostic
    about a worker that terminated before startup was completed, kill
    every process and raise [ServerKilled]; any other message is sent
    back on the channel, behind the messages that were waiting, the
    count of misses stays as it was and the barrier goes on. *)
Theorem terminate_early_kills_at_once
    (fuel : nat) (misses : Z) (message : string) (s s1 : State)
    (msg : Msg) (q : list Msg) :
  _all_workers_ack s = (s, Returned false) →
  poll s = (s1, Returned true) →
  inbox (world s1) = msg :: q →
  (msg = Some "__TERMINATE_EARLY__" →
   wait_for_ack_loop (S fuel) misses message s
   = (with_events (Log (Error_not_all_acknowledged message_early)
                   :: (all_processes (self s1) ≫= kill_events))
        (with_inbox q s1),
      Raised ServerKilled))
  ∧ (msg ≠ Some "__TERMINATE_EARLY__" →
     wait_for_ack_loop (S fuel) misses message s
     = wait_for_ack_loop fuel misses message (with_inbox (q ++ [msg]) s1)).
Proof.
  intros Hack Hpoll Hinbox.
  rewrite (wait_for_ack_receive _ _ _ _ _ _ _ Hack Hpoll Hinbox).
  split; intros Hmsg.
  - by rewrite decide_True.
  - by rewrite decide_False.
Qed.

(** C8, the threshold: when the quorum is not reached and nothing is
    received during [THRESHOLD + 1] polls after [start], the barrier logs
    the diagnostic of the timeout, [kill] runs once and [ServerKilled]
    leaves [wait_for_ack], [monitor] and [run]: the trace ends with the
    kill, with no join and no terminate request after it.  [kill] itself
    logs each process and sends it [SIGKILL] by pid ([SIGINT] where the
    module runs on Windows and binds the name so), in the order of
    [processes], then always raises [ServerKilled].  An iteration that
    misses kills exactly when the count goes beyond [THRESHOLD]. *)
Theorem kill_after_threshold (fuel : nat) (s : State) :
  silent (S (Z.to_nat THRESHOLD)) (start s).1 = true →
  ∃ killed,
    wait_for_ack (S (Z.to_nat THRESHOLD) + fuel) (start s).1
    = (killed, Raised ServerKilled)
    ∧ run (S (Z.to_nat THRESHOLD) + fuel) s = (killed, Raised ServerKilled)
    ∧ trace (world killed)
      = trace (world s) ++ (Start <$> all_processes (self s))
        ++ Log (Error_not_all_acknowledged message_timeout)
        :: (all_processes (self (start s).1) ≫= kill_events)
    ∧ (∀ s0, kill (A:=unit) s0
             = (with_events (all_processes (self s0) ≫= kill_events) s0,
                Raised ServerKilled))
    ∧ (∀ p, kill_events p
            = [Log (Info_killing (process_name p) (process_pid p));
               OsKill (process_pid p)
                 (if OS_IS_WINDOWS then signal.SIGINT else signal.SIGKILL)])
    ∧ (∀ fuel0 s0 s' e,
         wait_for_ack fuel0 (start s0).1 = (s', Raised e) →
         run fuel0 s0 = (s', Raised e))
    ∧ (∀ fuel0 misses message s0 s1,
         _all_workers_ack s0 = (s0, Returned false) →
         poll s0 = (s1, Returned false) →
         wait_for_ack_loop (S fuel0) misses message s0
         = if misses + 1 >? THRESHOLD
           then (with_events (Log (Error_not_all_acknowledged message)
                              :: (all_processes (self s1) ≫= kill_events)) s1,
                 Raised ServerKilled)
           else wait_for_ack_loop fuel0 (misses + 1) message s1).
Proof.
  intros Hsilent.
  pose proof (wait_for_ack_silent (Z.to_nat THRESHOLD) fuel 0 message_timeout
                (start s).1 eq_refl Hsilent) as Hwait.
  eexists. split; [exact Hwait|].
  split; [by apply run_raises_with_barrier|].
  split; [|split; [|split; [|split]]].
  - unfold with_events. cbn [world trace set_trace].
    rewrite iter_tick_trace, start_spec. cbn [fst world trace set_trace].
    by rewrite <- app_assoc.
  - intros s0. apply with_events_kill.
  - intros p. unfold kill_events, SIGKILL. by destruct OS_IS_WINDOWS.
  - intros fuel0 s0 s' e. apply run_raises_with_barrier.
  - intros fuel0 misses message s0 s1. apply wait_for_ack_miss.
Qed.

End Barrier.

(** The barrier of the test double with the sentinel at the head of the
    channel, and with another message there. *)
Lemma terminate_early_kills_at_once_witness :
  wait_for_ack_loop 1 0 message_timeout
    (Double.waiting [Some "__TERMINATE_EARLY__"; Some "Server-0"])
  = (with_events
       (Log (Error_not_all_acknowledged message_early)
        :: (all_processes (self (Double.waiting [])) ≫= kill_events))
       (Double.waiting [Some "Server-0"]),
     Raised ServerKilled)
  ∧ wait_for_ack_loop 1 0 message_timeout (Double.waiting [Some "Server-0"])
    = wait_for_ack_loop 0 0 message_timeout (Double.waiting [Some "Server-0"]).
Proof.
  split.
  - apply (terminate_early_kills_at_once 0 0 message_timeout
             (Double.waiting [Some "__TERMINATE_EARLY__"; Some "Server-0"])
             (Double.waiting [Some "__TERMINATE_EARLY__"; Some "Server-0"])
             (Some "__TERMINATE_EARLY__") [Some "Server-0"]);
      reflexivity.
  - apply (terminate_early_kills_at_once 0 0 message_timeout
             (Double.waiting [Some "Server-0"])
             (Double.waiting [Some "Server-0"])
             (Some "Server-0") []); [reflexivity..|discriminate].
Defined.

(** Two servers of which only one ever acknowledges: the run is killed
    after 301 polls. *)
Lemma kill_after_threshold_witness :
  ∃ killed,
    run 301 Double.half_acknowledged = (killed, Raised ServerKilled)
    ∧ trace (world killed)
      = trace (world Double.half_acknowledged)
        ++ (Start <$> all_processes (self Double.half_acknowledged))
        ++ Log (Error_not_all_acknowledged message_timeout)
        :: (all_processes (self (start Double.half_acknowledged).1)
              ≫= kill_events).
Proof.
  destruct (kill_after_threshold 0 Double.half_acknowledged)
    as (killed & _ & Hrun & Htrace & _).
  - vm_compute. reflexivity.
  - exists killed. split; [exact Hrun | exact Htrace].
Defined.

(** ** The monitor loop *)

Section Monitor.
Context {PAPI : ProcessAPI} {API : WorkerAPI}.

Lemma split1_without sep m : occurs sep m = false → split1 sep m = [m].
Proof.
  induction m as [|c m IH]; [done|]. simpl.
  destruct (bool_decide (c = sep)); [done|]. simpl.
  intros Hm. by rewrite IH.
Qed.

Lemma split1_with sep a b :
  occurs sep a = false → split1 sep (a +:+ String sep b) = [a; b].
Proof.
  induction a as [|c a IH]; simpl.
  - intros _. by rewrite bool_decide_eq_true_2.
  - destruct (bool_decide (c = sep)); [done|]. simpl.
    intros Ha. by rewrite IH.
Qed.

Lemma split_not_empty sep s : split sep s ≠ [].
Proof.
  destruct s as [|c s]; [done|]. simpl.
  destruct (bool_decide (c = sep)); [done|]. by destruct (split sep s).
Qed.

Lemma names_of_not_empty processes : names_of processes ≠ Some [].
Proof.
  unfold names_of. destruct (contains _ _); [done|].
  intros [= H]. apply fmap_nil_inv in H. by apply split_not_empty in H.
Qed.

Lemma names_of_spec processes :
  names_of processes ≠ Some []
  ∧ (names_of processes = None
     ↔ "__ALL_PROCESSES__" ∈ strip <$> split "," processes)
  ∧ (∀ names, names_of processes = Some names →
              names = strip <$> split "," processes).
Proof.
  split; [apply names_of_not_empty|].
  unfold names_of, contains. split.
  - case_bool_decide as Hin; [by split|].
    split; [discriminate|]. intros Hin'. by destruct Hin.
  - intros names. case_bool_decide; [discriminate|]. by intros [= <-].
Qed.

Lemma parse_message_without m :
  occurs ":" m = false →
  parse_message m = (names_of m, {["reloaded_files" := PNone]}).
Proof. intros Hm. unfold parse_message. by rewrite split1_without. Qed.

Lemma parse_message_with a b :
  occurs ":" a = false →
  parse_message (a +:+ String ":" b)
  = (names_of a, {["reloaded_files" := PStr b]}).
Proof. intros Ha. unfold parse_message. by rewrite split1_with. Qed.

(** The body of the loop when a message is received. *)
Lemma monitor_body_receive s s1 msg q :
  poll s = (s1, Returned true) →
  inbox (world s1) = msg :: q →
  monitor_body s
  = let s2 := with_events [Log (Debug_monitor_message msg)] (with_inbox q s1) in
    if falsy msg then (s2, Returned Break)
    else if bool_decide (msg = Some "__TERMINATE__")
    then (shut_down s2, Returned Break)
    else (restarted (parse_message (default "" msg)).1
            (parse_message (default "" msg)).2 s2,
          Returned Continue).
Proof.
  intros Hpoll Hinbox. unfold monitor_body.
  rewrite (bind_Returned _ _ _ _ _ Hpoll). cbn beta iota.
  assert (Hrecv : recv s1 = (with_inbox q s1, Returned msg))
    by (unfold recv; by rewrite Hinbox).
  rewrite (bind_Returned _ _ _ _ _ Hrecv).
  rewrite (bind_Returned _ _ _
             (with_events [Log (Debug_monitor_message msg)] (with_inbox q s1))
             tt) by done.
  cbn zeta. destruct (falsy msg); [done|].
  destruct (bool_decide (msg = Some "__TERMINATE__")).
  - by rewrite (bind_Returned _ _ _ _ tt (shutdown_spec _)).
  - destruct (parse_message (default "" msg)) as [names kwargs].
    by rewrite (bind_Returned _ _ _ _ tt (restart_spec _ _ _)).
Qed.

(** C6, the monitor loop on a received message: an absent or empty
    message ends the loop and nothing but the debug line is added to the
    trace; ["__TERMINATE__"] ends it after [shutdown] has requested the
    termination of every process alive; any other message is split at
    its first colon into names and payload, and the loop goes on after
    [restart] was called with the payload as it is and with the stripped
    names as the filter, which is never empty, or with no filter when
    ["__ALL_PROCESSES__"] is one of the names.  With no filter every
    transient process is restarted and no durable one. *)
Theorem monitor_dispatch
    (fuel : nat) (s s1 : State) (msg : Msg) (q : list Msg) :
  poll s = (s1, Returned true) →
  inbox (world s1) = msg :: q →
  let s2 := with_events [Log (Debug_monitor_message msg)] (with_inbox q s1) in
  (falsy msg = true → monitor_loop (S fuel) s = (s2, Returned tt))
  ∧ (msg = Some "__TERMINATE__" →
     monitor_loop (S fuel) s = (shut_down s2, Returned tt))
  ∧ (∀ m, msg = Some m → m ≠ "" → m ≠ "__TERMINATE__" →
          monitor_loop (S fuel) s
          = monitor_loop fuel
              (restarted (parse_message m).1 (parse_message m).2 s2))
  ∧ (∀ m, occurs ":" m = false →
          parse_message m = (names_of m, {["reloaded_files" := PNone]}))
  ∧ (∀ a b, occurs ":" a = false →
            parse_message (a +:+ String ":" b)
            = (names_of a, {["reloaded_files" := PStr b]}))
  ∧ (∀ processes,
       names_of processes ≠ Some []
       ∧ (names_of processes = None
          ↔ "__ALL_PROCESSES__" ∈ strip <$> split "," processes)
       ∧ (∀ names, names_of processes = Some names →
                   names = strip <$> split "," processes))
  ∧ parse_message "__ALL_PROCESSES__:changed.py"
    = (None, {["reloaded_files" := PStr "changed.py"]})
  ∧ (∀ kwargs s0,
       trace (world (restarted None kwargs s0))
       = trace (world s0)
         ++ ((λ p, Restart p kwargs) <$> transient_processes (self s0))
       ∧ durable (self (restarted None kwargs s0)) = durable (self s0)).
Proof.
  intros Hpoll Hinbox s2.
  pose proof (monitor_body_receive s s1 msg q Hpoll Hinbox) as Hbody.
  cbn zeta in Hbody. fold s2 in Hbody.
  split; [|split; [|split; [|split; [|split; [|split; [|split]]]]]].
  - intros Hfalsy. cbn [monitor_loop]. unfold bind, try_except_InterruptedError.
    by rewrite Hbody, Hfalsy.
  - intros ->. cbn [monitor_loop]. unfold bind, try_except_InterruptedError.
    by rewrite Hbody.
  - intros m -> Hm Hterm. cbn [monitor_loop].
    unfold bind, try_except_InterruptedError. rewrite Hbody.
    cbn [falsy]. rewrite bool_decide_eq_false_2 by done.
    rewrite bool_decide_eq_false_2 by congruence. done.
  - apply parse_message_without.
  - apply parse_message_with.
  - apply names_of_spec.
  - reflexivity.
  - intros kwargs s0. unfold restarted. cbn [self world trace set_trace].
    split; [|done]. f_equal. f_equal.
    induction (transient_processes (self s0)) as [|p ps IH]; [done|].
    rewrite filter_cons. destruct (decide _) as [_|Hp]; [|by destruct Hp].
    by rewrite IH.
Qed.

End Monitor.

(** The monitor loop of the test double on the message that restarts every
    server. *)
Lemma monitor_dispatch_witness :
  monitor_loop 1 (Double.serving [Some "__ALL_PROCESSES__:changed.py"])
  = monitor_loop 0
      (restarted None {["reloaded_files" := PStr "changed.py"]}
         (with_events
            [Log (Debug_monitor_message (Some "__ALL_PROCESSES__:changed.py"))]
            (Double.serving []))).
Proof.
  destruct (monitor_dispatch 0
              (Double.serving [Some "__ALL_PROCESSES__:changed.py"])
              (Double.serving [Some "__ALL_PROCESSES__:changed.py"])
              (Some "__ALL_PROCESSES__:changed.py") [] eq_refl eq_refl)
    as (_ & _ & Hrestart & _).
  apply (Hrestart "__ALL_PROCESSES__:changed.py");
    [reflexivity | discriminate | discriminate].
Defined.

(** Against the claim that a message without names is dispatched with no
    filter: the filter is then the list of the empty name, and no process
    is restarted although there are transient ones. *)
Lemma message_without_names_restarts_nothing :
  parse_message ":changed.py"
  = (Some [""], {["reloaded_files" := PStr "changed.py"]})
  ∧ length (transient_processes
              (self (Double.serving [Some ":changed.py"; None]))) = 2%nat
  ∧ (monitor_loop 2 (Double.serving [Some ":changed.py"; None])).2
    = Returned tt
  ∧ trace (world (monitor_loop 2 (Double.serving [Some ":changed.py"; None])).1)
    = trace (world (Double.serving []))
      ++ [Log (Debug_monitor_message (Some ":changed.py"));
          Log (Debug_monitor_message None)].
Proof. repeat split; vm_compute; reflexivity. Qed.

(** ** Runs of the test double *)

Example split_names : split "," "a, b,,c" = ["a"; " b"; ""; "c"].
Proof. reflexivity. Qed.

Example split1_payload : split1 ":" "a,b:x:y" = ["a,b"; "x:y"].
Proof. reflexivity. Qed.

Example strip_name : strip "  Sanic-Server-0-0 " = "Sanic-Server-0-0".
Proof. reflexivity. Qed.

Example range_3 : range 3 = [0; 1; 2] ∧ range (-2) = [].
Proof. split; reflexivity. Qed.

Example parse_two_names :
  parse_message "Server-1 , Server-7:app.py"
  = (Some ["Server-1"; "Server-7"], {["reloaded_files" := PStr "app.py"]}).
Proof. reflexivity. Qed.

(** Both servers acknowledge within five ticks: the barrier returns and
    nothing was killed. *)
Example barrier_returns :
  (wait_for_ack 5 (start Double.scheduled).1).2 = Returned tt
  ∧ trace (world (wait_for_ack 5 (start Double.scheduled).1).1)
    = trace (world (start Double.scheduled).1).
Proof. split; vm_compute; reflexivity. Qed.

(** The barrier needs the fifth look at the table. *)
Example barrier_needs_five :
  (wait_for_ack 4 (start Double.scheduled).1).2 = Diverged.
Proof. vm_compute. reflexivity. Qed.

(** A whole run: start, barrier, a restart of the one server that is
    named, shutdown on ["__TERMINATE__"], a pass of [join] that finds
    nothing to join, and [terminate]. *)
Example run_returns :
  (run 10 Double.scheduled).2 = Returned tt
  ∧ terminated (self (run 10 Double.scheduled).1) = true
  ∧ process_name <$> all_processes (self (run 10 Double.scheduled).1)
    = ["Server-0"; "Server-1"; "Reloader"]
  ∧ Double.restarts <$> all_processes (self (run 10 Double.scheduled).1)
    = [[]; [{["reloaded_files" := PStr "app.py"]}]; []].
Proof. repeat split; vm_compute; reflexivity. Qed.

(** Two passes of [join] are enough for the started double. *)
Example join_started :
  (join 2 (Double.started 2)).2 = Returned tt
  ∧ (join 1 (Double.started 2)).2 = Diverged.
Proof. split; vm_compute; reflexivity. Qed.

(** * Further properties of the methods *)

(** ** Calls that leave the processes as they are *)

Section Fixed.
Context {PAPI : ProcessAPI} {API : WorkerAPI}.

Lemma fmap_fixed {A} (f : A → A) (l : list A) :
  (∀ x, x ∈ l → f x = x) → f <$> l = l.
Proof.
  induction l as [|x l IH]; intros Hf; [done|].
  rewrite fmap_cons, Hf by apply list_elem_of_here.
  rewrite IH; [done|]. intros y Hy. apply Hf. by apply list_elem_of_further.
Qed.

Lemma update_processes_fixed (f : WorkerProcess → WorkerProcess) ws :
  (∀ p, p ∈ ws ≫= processes → f p = p) → update_processes f ws = ws.
Proof.
  induction ws as [|[i ps] ws IH]; intros Hf; [done|].
  unfold update_processes in *. rewrite fmap_cons. cbn [ident processes].
  rewrite bind_cons in Hf. cbn [processes] in Hf.
  rewrite fmap_fixed by (intros p Hp; apply Hf, elem_of_app; by left).
  rewrite IH; [done|]. intros p Hp. apply Hf, elem_of_app. by right.
Qed.

Lemma all_processes_split m :
  all_processes m = transient_processes m ++ durable_processes m.
Proof. unfold all_processes, workers. by rewrite bind_app. Qed.

Lemma map_all_fixed f m :
  (∀ p, p ∈ all_processes m → f p = p) → map_all f m = m.
Proof.
  rewrite all_processes_split. intros Hf. unfold map_all.
  rewrite (update_processes_fixed f (durable m))
    by (intros p Hp; apply Hf, elem_of_app; by right).
  rewrite (update_processes_fixed f (transient m))
    by (intros p Hp; apply Hf, elem_of_app; by left).
  by destruct m.
Qed.

Lemma map_transient_fixed f m :
  (∀ p, p ∈ transient_processes m → f p = p) → map_transient f m = m.
Proof.
  intros Hf. unfold map_transient.
  rewrite update_processes_fixed; [by destruct m|done].
Qed.

Lemma filter_none {A} (P : A → Prop) `{∀ x, Decision (P x)} (l : list A) :
  (∀ x, x ∈ l → ¬ P x) → filter P l = [].
Proof.
  induction l as [|x l IH]; intros Hl; [done|].
  rewrite filter_cons, decide_False by (apply Hl, list_elem_of_here).
  apply IH. intros y Hy. apply Hl. by apply list_elem_of_further.
Qed.

Lemma no_events s : with_events [] s = s.
Proof.
  destruct s as [m [t q sc tr pid]]. unfold with_events, set_trace. simpl.
  by rewrite app_nil_r.
Qed.

Lemma shutdown_nothing_alive s :
  (∀ p, p ∈ all_processes (self s) → process_is_alive p = false) →
  shutdown s = (s, Returned tt).
Proof.
  intros Hdead. rewrite shutdown_spec.
  rewrite map_all_fixed
    by (intros p Hp; unfold after_shutdown; by rewrite (Hdead p Hp)).
  rewrite filter_none by (intros p Hp; by rewrite (Hdead p Hp)).
  rewrite fmap_nil. f_equal. apply (no_events s).
Qed.

Lemma all_processes_append_durable w m :
  all_processes (append_durable w m) = all_processes m ++ processes w.
Proof.
  unfold all_processes, workers, append_durable. cbn [transient durable set_durable].
  rewrite app_assoc, bind_app, bind_cons. cbn [mbind list_bind].
  by rewrite app_nil_r.
Qed.

Lemma all_processes_append_transient w m :
  all_processes (append_transient w m)
  = transient_processes m ++ processes w ++ durable_processes m.
Proof.
  unfold all_processes, workers, append_transient, transient_processes,
    durable_processes. cbn [transient durable set_transient].
  rewrite !bind_app, bind_cons. cbn [mbind list_bind].
  by rewrite app_nil_r, <- app_assoc.
Qed.

(** X1, [start]: every process is started exactly once, those of the
    transient workers first and then those of the durable ones, each list in
    its order; the processes are the only part of the manager that changes,
    and the world only gains the calls. *)
Theorem start_every_process (s : State) :
  start s
  = ({| self := map_all process_start (self s);
        world := set_trace
                   (trace (world s) ++ (Start <$> all_processes (self s)))
                   (world s) |},
     Returned tt)
  ∧ all_processes (self s)
    = transient_processes (self s) ++ durable_processes (self s)
  ∧ all_processes (self (start s).1) = process_start <$> all_processes (self s)
  ∧ terminated (self (start s).1) = terminated (self s)
  ∧ num_server (self (start s).1) = num_server (self s)
  ∧ (ident <$> workers (self (start s).1)) = (ident <$> workers (self s)).
Proof.
  rewrite start_spec. split; [done|]. split; [apply all_processes_split|].
  split; [apply all_processes_map_all|]. split; [done|]. split; [done|].
  cbn [fst self]. unfold workers, map_all, update_processes.
  cbn [transient durable set_durable set_transient].
  rewrite !fmap_app, <- !list_fmap_compose. done.
Qed.

(** X2, [manage]: the worker is built from the arguments and the context
    of the manager and appended to the container that [transient] names,
    the other container is untouched; it is not started.  In
    [processes], the processes of a durable worker come last, those of a
    transient worker come after the transient ones and before the durable
    ones. *)
Theorem manage_registers
    (ident : string) (func kwargs : pyval) (tr : bool) (s : State) :
  let w := Worker_init ident func kwargs (context (self s)) in
  let s' := (manage ident func kwargs tr s).1 in
  manage ident func kwargs tr s = (s', Returned tt)
  ∧ world s' = set_trace (trace (world s) ++ [Created w]) (world s)
  ∧ transient (self s')
    = (if tr then transient (self s) ++ [w] else transient (self s))
  ∧ durable (self s')
    = (if tr then durable (self s) else durable (self s) ++ [w])
  ∧ all_processes (self s')
    = (if tr
       then transient_processes (self s) ++ processes w
            ++ durable_processes (self s)
       else all_processes (self s) ++ processes w)
  ∧ num_server (self s') = num_server (self s)
  ∧ terminated (self s') = terminated (self s)
  ∧ context (self s') = context (self s).
Proof.
  intros w s'. subst s'. rewrite manage_spec. fold w. cbn [fst].
  split; [done|]. split; [done|].
  destruct tr; cbn [self];
    (split; [done|]); (split; [done|]); (split; [|done]).
  - apply all_processes_append_transient.
  - apply all_processes_append_durable.
Qed.

(** X15, [restart] with names that no transient process has: nothing is
    restarted and nothing changes. *)
Theorem restart_without_match
    (names : list string) (kwargs : gmap string pyval) (s : State) :
  names ≠ [] →
  (∀ p, p ∈ transient_processes (self s) → process_name p ∉ names) →
  restart (Some names) kwargs s = (s, Returned tt).
Proof.
  intros Hnames Hnone.
  assert (Hsel : ∀ p, p ∈ transient_processes (self s) →
                      selected (Some names) p = false).
  { intros p Hp. unfold selected, contains.
    destruct names; [done|]. cbn [is_empty orb].
    apply bool_decide_eq_false_2. by apply Hnone. }
  rewrite restart_spec.
  rewrite map_transient_fixed
    by (intros p Hp; unfold after_restart; by rewrite (Hsel p Hp)).
  rewrite filter_none by (intros p Hp; by rewrite (Hsel p Hp)).
  rewrite fmap_nil. f_equal. apply (no_events s).
Qed.

(** X16, [shutdown] a second time: when a terminated process is no longer
    alive, a [shutdown] that follows a [shutdown] sends no request and
    changes nothing; so does any [shutdown] of a manager none of whose
    processes is alive. *)
Theorem shutdown_once_is_enough (s : State) :
  (∀ p, process_is_alive (process_terminate p) = false) →
  shutdown (shutdown s).1 = ((shutdown s).1, Returned tt)
  ∧ ∀ s0, (∀ p, p ∈ all_processes (self s0) → process_is_alive p = false) →
          shutdown s0 = (s0, Returned tt).
Proof.
  intros Hterminate. split; [|apply shutdown_nothing_alive].
  apply shutdown_nothing_alive. intros p. rewrite shutdown_spec. cbn [fst self].
  rewrite all_processes_map_all. intros (p0 & -> & _)%list_elem_of_fmap.
  unfold after_shutdown. destruct (process_is_alive p0) eqn:E; [|exact E].
  apply Hterminate.
Qed.

End Fixed.

(** A restart for a server that does not exist, on the test double. *)
Lemma restart_without_match_witness :
  restart (Some ["Server-7"]) {["reloaded_files" := PStr "app.py"]}
    (Double.serving [])
  = (Double.serving [], Returned tt).
Proof.
  apply (restart_without_match ["Server-7"]); [discriminate|].
  apply Forall_forall. refine (bool_decide_unpack _ _). vm_compute. exact I.
Defined.

(** Two shutdowns of the started test double. *)
Lemma shutdown_once_is_enough_witness :
  shutdown (shutdown (Double.started 2)).1
  = ((shutdown (Double.started 2)).1, Returned tt).
Proof.
  destruct (shutdown_once_is_enough (Double.started 2)) as [Htwice _];
    [reflexivity | exact Htwice].
Defined.

(** ** Construction, once more *)

Section Servers.
Context {PAPI : ProcessAPI} {API : WorkerAPI}.

#[local] Instance same_num_server_preorder : PreOrder same_num_server.
Proof.
  split.
  - intros m. reflexivity.
  - intros m1 m2 m3 H1 H2. unfold same_num_server in *. congruence.
Qed.

#[local] Instance same_terminated_preorder : PreOrder same_terminated.
Proof.
  split.
  - intros m. reflexivity.
  - intros m1 m2 m3 H1 H2. unfold same_terminated in *. congruence.
Qed.

Lemma perform_same_num_server c : preserves same_num_server (perform c).
Proof.
  destruct (registers_transient c) eqn:Hc.
  - destruct c as [ident func kwargs [] | | | | | | | | | | | ]; try done;
      intros s; reflexivity.
  - apply (preserves_perform same_num_server); try done; intros;
      unfold same_num_server; simpl; auto.
Qed.

Lemma steps_same_num_server s s' :
  rtc (step any_call) s s' → num_server (self s') = num_server (self s).
Proof.
  apply (steps_preserve same_num_server). intros c _.
  apply perform_same_num_server.
Qed.

Lemma all_workers_ack_returns s :
  ∃ b, _all_workers_ack s = (s, Returned b).
Proof. eexists. unfold _all_workers_ack, bind, get_self, get_world, ret. done. Qed.

Lemma all_workers_ack_negative s :
  num_server (self s) < 0 → _all_workers_ack s = (s, Returned false).
Proof.
  intros Hn. unfold _all_workers_ack, bind, get_self, get_world, ret.
  cbn beta iota zeta. f_equal. f_equal.
  apply andb_false_intro2, Z.eqb_neq. lia.
Qed.

Lemma range_lookup (n : Z) (i : nat) :
  Z.of_nat i < n → range n !! i = Some (Z.of_nat i).
Proof.
  intros Hi. unfold range. rewrite list_lookup_fmap, lookup_seq_lt by lia.
  done.
Qed.

(** X3, a successful construction: for [number >= 1] the transient workers
    are built in the order of their index from the name
    [SERVER_LABEL-index], the server routine, its settings and the
    context; the handlers of [SIGINT] and [SIGTERM] are installed after
    the last worker is built, in this order, and nothing is started; the
    manager is not terminated and the channel is left alone. *)
Theorem construction_builds_servers
    (number : Z) (serve server_settings ctx : pyval) (w : World) :
  1 ≤ number →
  ∃ w' m,
    new_WorkerManager number serve server_settings ctx w = (w', Returned m)
    ∧ transient m
      = (λ i, Worker_init (SERVER_LABEL +:+ "-" +:+ pretty i) serve
                server_settings ctx) <$> range number
    ∧ (∀ i : nat, Z.of_nat i < number →
         transient m !! i
         = Some (Worker_init (SERVER_LABEL +:+ "-" +:+ pretty (Z.of_nat i))
                   serve server_settings ctx))
    ∧ trace w'
      = trace w ++ (Created <$> transient m)
        ++ [SignalFunc signal.SIGINT; SignalFunc signal.SIGTERM]
    ∧ context m = ctx
    ∧ terminated m = false
    ∧ inbox w' = inbox w
    ∧ script w' = script w.
Proof.
  intros Hn. unfold new_WorkerManager. rewrite init_spec by lia.
  cbn zeta. eexists. eexists. split; [reflexivity|].
  cbn [transient context terminated world self trace inbox script set_trace
       seeded set_worker_state].
  split; [done|]. split; [|done].
  intros i Hi. rewrite list_lookup_fmap, range_lookup by done. done.
Qed.

(** X4, a negative number of workers: the constructor tests [number == 0]
    only, so it succeeds, builds no worker and installs the handlers; the
    manager keeps the negative [num_server], and whatever is called on it
    and whatever the workers write, [_all_workers_ack] answers false. *)
Theorem negative_number_is_never_acknowledged
    (number : Z) (serve server_settings ctx : pyval) (w : World) :
  number < 0 →
  ∃ w' m,
    new_WorkerManager number serve server_settings ctx w = (w', Returned m)
    ∧ transient m = []
    ∧ durable m = []
    ∧ num_server m = number
    ∧ trace w'
      = trace w ++ [SignalFunc signal.SIGINT; SignalFunc signal.SIGTERM]
    ∧ (∀ s s', self s = m → rtc (step any_call) s s' →
               _all_workers_ack s' = (s', Returned false)).
Proof.
  intros Hn. unfold new_WorkerManager. rewrite init_spec by lia.
  cbn zeta. eexists. eexists. split; [reflexivity|].
  assert (Hrange : range number = []).
  { unfold range. replace (Z.to_nat number) with 0%nat by lia. done. }
  rewrite Hrange.
  cbn [transient durable num_server world self trace set_trace seeded
       set_worker_state fmap list_fmap app].
  split; [done|]. split; [done|]. split; [done|]. split; [done|].
  intros s s' Hs Hsteps. apply all_workers_ack_negative.
  rewrite (steps_same_num_server _ _ Hsteps), Hs. done.
Qed.

End Servers.

(** Construction for two servers on the test double. *)
Lemma construction_builds_servers_witness :
  ∃ w' m,
    new_WorkerManager (API:=Double.worker_api) 2 PNone PNone PNone Double.quiet
    = (w', Returned m)
    ∧ ident <$> transient m = ["Server-0"; "Server-1"]
    ∧ trace w'
      = (Created <$> transient m)
        ++ [SignalFunc signal.SIGINT; SignalFunc signal.SIGTERM].
Proof.
  destruct (construction_builds_servers (API:=Double.worker_api)
              2 PNone PNone PNone Double.quiet ltac:(lia))
    as (w' & m & Hnew & Htransient & _ & Htrace & _).
  exists w', m. split; [exact Hnew|]. split; [|exact Htrace].
  rewrite Htransient. reflexivity.
Defined.

(** Construction for minus one server on the test double. *)
Lemma negative_number_is_never_acknowledged_witness :
  ∃ w' m,
    new_WorkerManager (API:=Double.worker_api) (-1) PNone PNone PNone
      Double.quiet
    = (w', Returned m)
    ∧ transient m = []
    ∧ num_server m = -1
    ∧ _all_workers_ack {| self := m; world := w' |}
      = ({| self := m; world := w' |}, Returned false).
Proof.
  destruct (negative_number_is_never_acknowledged (API:=Double.worker_api)
              (-1) PNone PNone PNone Double.quiet ltac:(lia))
    as (w' & m & Hnew & Htransient & _ & Hnum & _ & Hack).
  exists w', m. split; [exact Hnew|]. split; [exact Htransient|].
  split; [exact Hnum|]. apply (Hack {| self := m; world := w' |});
    [reflexivity | apply rtc_refl].
Defined.

(** ** What holds when [join] and [run] return *)

Section Returns.
Context {PAPI : ProcessAPI} {API : WorkerAPI}.
#[local] Existing Instance same_terminated_preorder.

Lemma by_outcome {A} (c : M A) s o : (c s).2 = o → c s = ((c s).1, o).
Proof. intros <-. by destruct (c s). Qed.

Lemma all_workers_ack_by_outcome s b :
  (_all_workers_ack s).2 = Returned b → _all_workers_ack s = (s, Returned b).
Proof. intros H. by rewrite (by_outcome _ _ _ H). Qed.

Lemma bind_Returned_inv {A B} (c : M A) (f : A → M B) s s' b :
  bind c f s = (s', Returned b) →
  ∃ s1 a, c s = (s1, Returned a) ∧ f a s1 = (s', Returned b).
Proof.
  unfold bind. destruct (c s) as [s1 [a| |]]; [|done..]. eauto.
Qed.

Lemma pass_self s : self (pass s) = map_all after_join (self s).
Proof. unfold pass. by rewrite join_pass_spec. Qed.

Lemma pass_quiescent s : quiescent s → self (pass s) = self s.
Proof.
  intros Hq. rewrite pass_self. apply map_all_fixed.
  intros p Hp. unfold after_join.
  by rewrite (proj1 (Forall_forall _ _) Hq p Hp).
Qed.

Lemma iter_pass_length n s :
  length (all_processes (self (Nat.iter n pass s)))
  = length (all_processes (self s)).
Proof.
  induction n as [|n IH]; [done|].
  change (Nat.iter (S n) pass s) with (pass (Nat.iter n pass s)).
  by rewrite pass_self, all_processes_map_all, length_fmap.
Qed.

Lemma same_terminated_lists m ts ds :
  same_terminated m (set_durable ds (set_transient ts m)).
Proof. done. Qed.

Lemma same_terminated_transient m ts : same_terminated m (set_transient ts m).
Proof. done. Qed.

Lemma join_returns_quiescent (fuel : nat) (s s' : State) :
  join fuel s = (s', Returned tt) →
  quiescent s'
  ∧ length (all_processes (self s')) = length (all_processes (self s))
  ∧ terminated (self s') = terminated (self s).
Proof.
  intros Hjoin.
  pose proof (preserves_join same_terminated
                (λ m ts ds _, same_terminated_lists m ts ds) fuel s) as Hterm.
  rewrite Hjoin in Hterm. cbn [fst] in Hterm.
  apply join_returns_iff in Hjoin as (k & _ & _ & Hq & ->).
  split; [|split; [apply iter_pass_length | exact Hterm]].
  change (Nat.iter (S k) pass s) with (pass (Nat.iter k pass s)).
  unfold quiescent in *. by rewrite pass_quiescent.
Qed.

(** X12, when [join] returns: no process is below [JOINED] any more, the
    processes are as many as before and the manager is terminated or not
    as it was. *)
Theorem join_leaves_nothing_to_join (fuel : nat) (s s' : State) :
  join fuel s = (s', Returned tt) →
  quiescent s'
  ∧ length (all_processes (self s')) = length (all_processes (self s))
  ∧ terminated (self s') = terminated (self s).
Proof. apply join_returns_quiescent. Qed.

(** X13, when [run] returns: on a manager that was not terminated, the
    last calls of the run are one terminate request for every process, in
    the order of [processes], sent when no process was below [JOINED]; the
    manager is terminated. *)
Theorem run_ends_with_terminate (fuel : nat) (s s' : State) :
  terminated (self s) = false →
  run fuel s = (s', Returned tt) →
  ∃ joined,
    quiescent joined
    ∧ trace (world s')
      = trace (world joined) ++ (Terminate <$> all_processes (self joined))
    ∧ self s' = set_terminated true (map_all process_terminate (self joined))
    ∧ terminated (self s') = true.
Proof.
  intros Hfalse Hrun. unfold run, monitor in Hrun.
  apply bind_Returned_inv in Hrun as (s1 & [] & Hstart & Hrun).
  apply bind_Returned_inv in Hrun as (s2 & [] & Hmonitor & Hrun).
  apply bind_Returned_inv in Hrun as (s3 & [] & Hjoin & Hterminate).
  apply bind_Returned_inv in Hmonitor as (s1' & [] & Hwait & Hloop).
  destruct (join_returns_quiescent fuel s2 s3 Hjoin) as (Hq & _ & Hterm3).
  pose proof (preserves_start same_terminated
                (λ m ts ds _, same_terminated_lists m ts ds) s) as H1.
  pose proof (preserves_wait_for_ack_loop same_terminated
                (λ m ts ds _, same_terminated_lists m ts ds)
                fuel 0 message_timeout s1) as H2.
  pose proof (preserves_monitor_loop same_terminated
                (λ m ts ds _, same_terminated_lists m ts ds)
                (λ m ts _, same_terminated_transient m ts) fuel s1') as H3.
  unfold wait_for_ack in Hwait.
  rewrite Hstart in H1. rewrite Hwait in H2. rewrite Hloop in H3.
  cbn [fst] in H1, H2, H3. unfold same_terminated in H1, H2, H3.
  assert (Hfalse3 : terminated (self s3) = false) by congruence.
  rewrite terminate_spec, Hfalse3 in Hterminate.
  injection Hterminate as <-.
  exists s3. split; [exact Hq|]. done.
Qed.

End Returns.

(** [join] on the started test double. *)
Lemma join_leaves_nothing_to_join_witness :
  quiescent (join 2 (Double.started 2)).1.
Proof.
  apply (join_leaves_nothing_to_join 2 (Double.started 2)).
  apply by_outcome. vm_compute. reflexivity.
Defined.

(** The whole run of the scheduled test double. *)
Lemma run_ends_with_terminate_witness :
  ∃ joined,
    quiescent joined
    ∧ trace (world (run 10 Double.scheduled).1)
      = trace (world joined) ++ (Terminate <$> all_processes (self joined)).
Proof.
  destruct (run_ends_with_terminate 10 Double.scheduled
              (run 10 Double.scheduled).1 eq_refl)
    as (joined & Hq & Htrace & _).
  - apply by_outcome. vm_compute. reflexivity.
  - exists joined. split; [exact Hq | exact Htrace].
Defined.

(** ** The barrier, once more *)

Section BarrierOutcomes.
Context {PAPI : ProcessAPI} {API : WorkerAPI}.

Lemma poll_true s s1 :
  poll s = (s1, Returned true) → ∃ m q, inbox (world s1) = m :: q.
Proof.
  unfold poll. destruct (script (world s)) as [|t sc].
  - intros [= <- Hq]. destruct (inbox (world s)) as [|m q]; [done|]. eauto.
  - cbn zeta. destruct (interrupted t); intros [= <- Hq]. cbn [world] in *.
    change (inbox (set_script sc (apply_tick t (world s))))
      with (inbox (world s) ++ arrivals t).
    destruct (inbox (world s) ++ arrivals t) as [|m q]; [discriminate Hq|].
    eauto.
Qed.

Lemma poll_outcome s :
  (∃ ready, poll s = (tick s, Returned ready))
  ∨ poll s = (tick s, Raised InterruptedError).
Proof.
  unfold tick, poll. destruct (script (world s)) as [|t sc]; [eauto|].
  destruct (interrupted t); eauto.
Qed.

Lemma all_workers_ack_frame s s' :
  worker_state (world s') = worker_state (world s) →
  num_server (self s') = num_server (self s) →
  (_all_workers_ack s').2 = (_all_workers_ack s).2.
Proof.
  intros Ht Hn. unfold _all_workers_ack, bind, get_self, get_world, ret.
  cbn beta iota zeta. cbn [snd]. by rewrite Ht, Hn.
Qed.

Lemma all_workers_ack_with_inbox q s b :
  _all_workers_ack s = (s, Returned b) →
  _all_workers_ack (with_inbox q s) = (with_inbox q s, Returned b).
Proof.
  intros Hack. destruct (all_workers_ack_returns (with_inbox q s)) as [b' Hb'].
  rewrite Hb'. f_equal.
  transitivity (_all_workers_ack (with_inbox q s)).2; [by rewrite Hb'|].
  rewrite (all_workers_ack_frame s (with_inbox q s)) by done. by rewrite Hack.
Qed.

Lemma wait_for_ack_acknowledged fuel misses message s :
  _all_workers_ack s = (s, Returned true) →
  wait_for_ack_loop (S fuel) misses message s = (s, Returned tt).
Proof.
  intros Hack. cbn [wait_for_ack_loop].
  by rewrite (bind_Returned _ _ _ _ _ Hack).
Qed.

Lemma wait_for_ack_interrupted fuel misses message s s1 :
  _all_workers_ack s = (s, Returned false) →
  poll s = (s1, Raised InterruptedError) →
  wait_for_ack_loop (S fuel) misses message s = (s1, Raised InterruptedError).
Proof.
  intros Hack Hpoll. cbn [wait_for_ack_loop].
  rewrite (bind_Returned _ _ _ _ _ Hack). cbn beta iota.
  by rewrite (bind_Raised _ _ _ _ _ Hpoll).
Qed.

(** Whatever the barrier does in one iteration, it returns only with the
    quorum, and then nothing was added to the trace. *)
Lemma wait_for_ack_returns fuel misses message s s' :
  wait_for_ack_loop fuel misses message s = (s', Returned tt) →
  _all_workers_ack s' = (s', Returned true)
  ∧ trace (world s') = trace (world s)
  ∧ self s' = self s.
Proof.
  revert misses message s.
  induction fuel as [|fuel IH]; intros misses message s; [done|].
  destruct (all_workers_ack_returns s) as [[] Hack].
  { rewrite (wait_for_ack_acknowledged _ _ _ _ Hack). by intros [= <-]. }
  destruct (poll_outcome s) as [[ready Hpoll]|Hpoll];
    [|by rewrite (wait_for_ack_interrupted _ _ _ _ _ Hack Hpoll)].
  pose proof (tick_self s) as Hself. pose proof (tick_trace s) as Htrace.
  destruct ready.
  - destruct (poll_true _ _ Hpoll) as (msg & q & Hinbox).
    rewrite (wait_for_ack_receive _ _ _ _ _ _ _ Hack Hpoll Hinbox).
    destruct (decide _); [done|].
    intros (Hq & Htr & Hs)%IH. split; [done|].
    split; [by rewrite Htr|by rewrite Hs].
  - rewrite (wait_for_ack_miss _ _ _ _ _ Hack Hpoll).
    destruct (misses + 1 >? THRESHOLD); [done|].
    intros (Hq & Htr & Hs)%IH. split; [done|].
    split; [by rewrite Htr|by rewrite Hs].
Qed.

(** X9, when the barrier returns: [wait_for_ack] returns only in a state
    in which [_all_workers_ack] answers true; it has then sent no signal
    and logged nothing, and the manager is as it was. *)
Theorem barrier_returns_only_with_quorum (fuel : nat) (s s' : State) :
  wait_for_ack fuel s = (s', Returned tt) →
  _all_workers_ack s' = (s', Returned true)
  ∧ trace (world s') = trace (world s)
  ∧ self s' = self s.
Proof. apply wait_for_ack_returns. Qed.

(** X10, the barrier passes as soon as the quorum is there: after [k]
    polls without quorum and without message, and before the threshold is
    passed, the barrier returns in the first state in which
    [_all_workers_ack] answers true, without a further poll. *)
Theorem barrier_returns_at_quorum
    (k fuel : nat) (misses : Z) (message : string) (s : State) :
  misses + Z.of_nat k ≤ THRESHOLD →
  silent k s = true →
  _all_workers_ack (Nat.iter k tick s) = (Nat.iter k tick s, Returned true) →
  wait_for_ack_loop (S k + fuel) misses message s
  = (Nat.iter k tick s, Returned tt).
Proof.
  revert misses s. induction k as [|k IH]; intros misses s Hm Hsilent Hack.
  - by apply wait_for_ack_acknowledged.
  - destruct (silent_S _ _ Hsilent) as (Hfalse & Hpoll & Hrest).
    change (S (S k) + fuel)%nat with (S (S k + fuel)).
    rewrite (wait_for_ack_miss _ _ _ _ _ Hfalse Hpoll).
    destruct (Z.gtb_spec (misses + 1) THRESHOLD) as [Hgt|_]; [lia|].
    rewrite Nat.iter_succ_r in Hack |- *. apply IH; [lia|done..].
Qed.

(** X8, an interrupted poll during the barrier: [InterruptedError] leaves
    [wait_for_ack] and [monitor], and [run] when the interruption is at
    the first poll after [start], on every platform: the [try] of
    [monitor] starts after the barrier. *)
Theorem barrier_interruption_propagates (fuel : nat) (s s1 : State) :
  _all_workers_ack s = (s, Returned false) →
  poll s = (s1, Raised InterruptedError) →
  wait_for_ack (S fuel) s = (s1, Raised InterruptedError)
  ∧ monitor (S fuel) s = (s1, Raised InterruptedError)
  ∧ (∀ s0, (start s0).1 = s →
           run (S fuel) s0 = (s1, Raised InterruptedError)).
Proof.
  intros Hack Hpoll.
  pose proof (wait_for_ack_interrupted fuel 0 message_timeout s s1 Hack Hpoll)
    as Hwait.
  split; [exact Hwait|]. split.
  - unfold monitor. by apply bind_Raised.
  - intros s0 <-. by apply run_raises_with_barrier.
Qed.

(** X11, a message that stays on the channel: a message other than
    ["__TERMINATE_EARLY__"] is sent back without a miss being counted, so
    as long as the quorum is not reached and nothing else happens the
    barrier goes round without end: for no amount of fuel does it return,
    kill or raise. *)
Theorem pending_message_defeats_timeout
    (fuel : nat) (misses : Z) (message : string) (s : State) :
  script (world s) = [] →
  inbox (world s) ≠ [] →
  Forall (λ m, m ≠ Some "__TERMINATE_EARLY__") (inbox (world s)) →
  _all_workers_ack s = (s, Returned false) →
  ∃ s', wait_for_ack_loop fuel misses message s = (s', Diverged)
        ∧ trace (world s') = trace (world s)
        ∧ self s' = self s
        ∧ inbox (world s') ≡ₚ inbox (world s).
Proof.
  revert s. induction fuel as [|fuel IH];
    intros s Hscript Hinbox Hall Hack; [by exists s|].
  destruct (inbox (world s)) as [|msg q] eqn:Hq; [done|].
  assert (Hpoll : poll s = (s, Returned true))
    by (unfold poll; by rewrite Hscript, Hq).
  rewrite (wait_for_ack_receive _ _ _ _ _ _ _ Hack Hpoll Hq).
  apply Forall_cons in Hall as [Hmsg Hall].
  rewrite decide_False by done.
  destruct (IH (with_inbox (q ++ [msg]) s)) as (s' & Hloop & Htr & Hs & Hin).
  - done.
  - cbn [with_inbox world inbox set_inbox]. by destruct q.
  - cbn [with_inbox world inbox set_inbox]. apply Forall_app. split; [done|].
    by apply Forall_singleton.
  - by apply all_workers_ack_with_inbox.
  - exists s'. split; [exact Hloop|]. split; [exact Htr|]. split; [exact Hs|].
    rewrite Hin. cbn [with_inbox world inbox set_inbox].
    by rewrite <- Permutation_cons_append.
Qed.

End BarrierOutcomes.

(** The barrier of the scheduled test double. *)
Lemma barrier_returns_only_with_quorum_witness :
  _all_workers_ack (wait_for_ack 5 (start Double.scheduled).1).1
  = ((wait_for_ack 5 (start Double.scheduled).1).1, Returned true).
Proof.
  apply (barrier_returns_only_with_quorum 5 (start Double.scheduled).1).
  apply by_outcome. vm_compute. reflexivity.
Defined.

(** The servers of the scheduled test double acknowledge at the fourth
    tick. *)
Lemma barrier_returns_at_quorum_witness :
  wait_for_ack 5 (start Double.scheduled).1
  = (Nat.iter 4 tick (start Double.scheduled).1, Returned tt).
Proof.
  apply (barrier_returns_at_quorum 4 0 0 message_timeout
           (start Double.scheduled).1).
  - vm_compute. discriminate.
  - vm_compute. reflexivity.
  - apply all_workers_ack_by_outcome. vm_compute. reflexivity.
Defined.

(** An interruption at the first poll of the barrier, on Linux and on
    Windows. *)
Lemma barrier_interruption_propagates_witness :
  (wait_for_ack 1 Double.interrupted_next).2 = Raised InterruptedError
  ∧ (monitor 1 Double.interrupted_next_windows).2 = Raised InterruptedError.
Proof.
  split.
  - destruct (barrier_interruption_propagates 0 Double.interrupted_next
                (tick Double.interrupted_next)) as [-> _].
    + apply all_workers_ack_by_outcome. vm_compute. reflexivity.
    + apply (by_outcome poll). vm_compute. reflexivity.
    + reflexivity.
  - destruct (barrier_interruption_propagates 0 Double.interrupted_next_windows
                (tick Double.interrupted_next_windows)) as (_ & -> & _).
    + apply all_workers_ack_by_outcome. vm_compute. reflexivity.
    + apply (by_outcome poll). vm_compute. reflexivity.
    + reflexivity.
Defined.

(** The [None] of the signal handler on the channel of a barrier that
    waits for its second server. *)
Lemma pending_message_defeats_timeout_witness :
  ∃ s', wait_for_ack 1000 (Double.waiting [None]) = (s', Diverged)
        ∧ trace (world s') = trace (world (Double.waiting [None])).
Proof.
  destruct (pending_message_defeats_timeout 1000 0 message_timeout
              (Double.waiting [None]))
    as (s' & Hloop & Htrace & _).
  - reflexivity.
  - discriminate.
  - apply Forall_singleton. discriminate.
  - apply all_workers_ack_by_outcome. vm_compute. reflexivity.
  - exists s'. split; [exact Hloop | exact Htrace].
Defined.

(** ** The monitor loop and the signal handler *)

Section MonitorOutcomes.
Context {PAPI : ProcessAPI} {API : WorkerAPI}.

Lemma monitor_loop_unfold fuel s :
  monitor_loop (S fuel) s
  = match monitor_body s with
    | (s1, Returned Continue) => monitor_loop fuel s1
    | (s1, Returned Break) => (s1, Returned tt)
    | (s1, Raised InterruptedError) =>
        if OS_IS_WINDOWS then (s1, Returned tt)
        else (s1, Raised InterruptedError)
    | (s1, Raised e) => (s1, Raised e)
    | (s1, Diverged) => (s1, Diverged)
    end.
Proof.
  cbn [monitor_loop]. unfold bind, try_except_InterruptedError.
  destruct (monitor_body s) as [s1 [[]|[]|]]; try done.
  by destruct OS_IS_WINDOWS.
Qed.

Lemma monitor_body_no_message s s1 :
  poll s = (s1, Returned false) → monitor_body s = (s1, Returned Continue).
Proof.
  intros Hpoll. unfold monitor_body. by rewrite (bind_Returned _ _ _ _ _ Hpoll).
Qed.

Lemma monitor_body_interrupted s s1 :
  poll s = (s1, Raised InterruptedError) →
  monitor_body s = (s1, Raised InterruptedError).
Proof. intros Hpoll. unfold monitor_body. by apply bind_Raised. Qed.

(** What an iteration of the loop can do to the durable workers. *)
Lemma monitor_body_durable s :
  durable (self (monitor_body s).1) = durable (self s)
  ∨ ((monitor_body s).2 = Returned Break
     ∧ durable (self (monitor_body s).1)
       = update_processes after_shutdown (durable (self s))).
Proof.
  pose proof (tick_self s) as Hself.
  destruct (poll_outcome s) as [[[] Hpoll]|Hpoll].
  - destruct (poll_true _ _ Hpoll) as (msg & q & Hinbox).
    rewrite (monitor_body_receive _ _ _ _ Hpoll Hinbox). cbn zeta.
    destruct (falsy msg); [left; by rewrite <- Hself|].
    destruct (bool_decide _).
    + right. split; [done|]. cbn [fst self shut_down map_all set_durable
                                 durable with_events with_inbox].
      by rewrite Hself.
    + left. cbn [fst self restarted map_transient set_transient durable
                 with_events with_inbox]. by rewrite Hself.
  - rewrite (monitor_body_no_message _ _ Hpoll). left. by rewrite <- Hself.
  - rewrite (monitor_body_interrupted _ _ Hpoll). left. by rewrite <- Hself.
Qed.

Lemma monitor_loop_durable fuel s :
  durable (self (monitor_loop fuel s).1) = durable (self s)
  ∨ durable (self (monitor_loop fuel s).1)
    = update_processes after_shutdown (durable (self s)).
Proof.
  revert s. induction fuel as [|fuel IH]; intros s; [by left|].
  rewrite monitor_loop_unfold.
  destruct (monitor_body_durable s) as [Hsame|[Hbreak Hshut]].
  - destruct (monitor_body s) as [s1 [[]|[]|]]; cbn [fst] in *;
      try (by left).
    + rewrite <- Hsame. apply IH.
    + destruct OS_IS_WINDOWS; by left.
  - destruct (monitor_body s) as [s1 o]. cbn [fst snd] in *. subst o.
    by right.
Qed.

(** X17, the monitor loop and the durable workers: whatever arrives on the
    channel and however the loop ends, the durable workers are afterwards
    as they were, or as the one [shutdown] of ["__TERMINATE__"] left them:
    no message restarts a durable process. *)
Theorem monitor_spares_durable (fuel : nat) (s : State) :
  durable (self (monitor_loop fuel s).1) = durable (self s)
  ∨ durable (self (monitor_loop fuel s).1)
    = update_processes after_shutdown (durable (self s)).
Proof. apply monitor_loop_durable. Qed.

(** X6, the monitor loop without messages: when nothing is on the channel
    and nothing arrives, the loop polls without end and changes nothing;
    it stops on a message or an interruption only. *)
Theorem monitor_waits_for_messages (fuel : nat) (s : State) :
  script (world s) = [] →
  inbox (world s) = [] →
  monitor_loop fuel s = (s, Diverged).
Proof.
  intros Hscript Hinbox. induction fuel as [|fuel IH]; [done|].
  assert (Hpoll : poll s = (s, Returned false))
    by (unfold poll; by rewrite Hscript, Hinbox).
  by rewrite monitor_loop_unfold, (monitor_body_no_message _ _ Hpoll).
Qed.

(** X7, an interrupted poll in the monitor loop: where the module runs on
    Windows the loop ends as after an empty message, without shutdown;
    elsewhere [InterruptedError] is raised again and leaves [monitor]. *)
Theorem monitor_interrupted (fuel : nat) (s s1 : State) :
  poll s = (s1, Raised InterruptedError) →
  monitor_loop (S fuel) s
  = if OS_IS_WINDOWS then (s1, Returned tt)
    else (s1, Raised InterruptedError).
Proof.
  intros Hpoll.
  by rewrite monitor_loop_unfold, (monitor_body_interrupted _ _ Hpoll).
Qed.

Lemma shutdown_signal_spec sig frame s :
  shutdown_signal sig frame s
  = (shut_down (with_inbox (inbox (world s) ++ [None])
                  (with_events [Log (Info_received_signal sig)] s)),
     Returned tt).
Proof.
  unfold shutdown_signal, bind, log, emit, send, modify_world.
  cbn beta iota. by rewrite shutdown_spec.
Qed.

(** X5, the signal handler: it logs the signal, puts [None] on the
    channel behind what is waiting there, and requests the termination of
    every process that is alive, without setting [terminated].  If the
    channel was empty and the next poll is not interrupted, the next
    iteration of the monitor loop receives the [None] and ends the loop
    without another shutdown. *)
Theorem signal_handler_stops_monitor
    (sig : signal.Signals) (frame : pyval) (fuel : nat) (s : State) :
  inbox (world s) = [] →
  calm s →
  let s1 := shut_down (with_inbox [None]
                         (with_events [Log (Info_received_signal sig)] s)) in
  shutdown_signal sig frame s = (s1, Returned tt)
  ∧ terminated (self s1) = terminated (self s)
  ∧ trace (world s1)
    = trace (world s) ++ Log (Info_received_signal sig)
      :: (Terminate <$> filter (λ p, process_is_alive p = true)
                          (all_processes (self s)))
  ∧ ∃ q, poll s1 = (tick s1, Returned true)
         ∧ inbox (world (tick s1)) = None :: q
         ∧ monitor_loop (S fuel) s1
           = (with_events [Log (Debug_monitor_message None)]
                (with_inbox q (tick s1)),
              Returned tt).
Proof.
  intros Hinbox Hcalm s1.
  split; [by rewrite shutdown_signal_spec, Hinbox|].
  split; [subst s1; reflexivity|].
  split.
  { subst s1. cbn [shut_down world trace set_trace with_inbox with_events
                   set_inbox self]. by rewrite <- app_assoc. }
  assert (Hpoll : ∃ q, poll s1 = (tick s1, Returned true)
                       ∧ inbox (world (tick s1)) = None :: q).
  { unfold tick, poll, calm in *. subst s1.
    cbn [shut_down world script set_trace with_inbox with_events set_inbox
         inbox]. destruct (script (world s)) as [|t sc].
    - exists []. done.
    - rewrite Hcalm. exists (arrivals t). done. }
  destruct Hpoll as (q & Hpoll & Hq). exists q.
  split; [exact Hpoll|]. split; [exact Hq|].
  by rewrite monitor_loop_unfold, (monitor_body_receive _ _ _ _ Hpoll Hq).
Qed.

End MonitorOutcomes.

(** The monitor loop of the serving test double with an empty channel. *)
Lemma monitor_waits_for_messages_witness :
  monitor_loop 1000 (Double.serving []) = (Double.serving [], Diverged).
Proof.
  apply (monitor_waits_for_messages 1000 (Double.serving [])); reflexivity.
Defined.

(** An interruption at the first poll of the monitor loop, on Linux and on
    Windows. *)
Lemma monitor_interrupted_witness :
  monitor_loop 1 Double.interrupted_next
  = (tick Double.interrupted_next, Raised InterruptedError)
  ∧ monitor_loop 1 Double.interrupted_next_windows
    = (tick Double.interrupted_next_windows, Returned tt).
Proof.
  split.
  - apply (monitor_interrupted 0 Double.interrupted_next).
    apply (by_outcome poll). vm_compute. reflexivity.
  - apply (monitor_interrupted 0 Double.interrupted_next_windows).
    apply (by_outcome poll). vm_compute. reflexivity.
Defined.

(** [SIGINT] on the started test double. *)
Lemma signal_handler_stops_monitor_witness :
  (shutdown_signal signal.SIGINT PNone (Double.started 2)).2 = Returned tt
  ∧ terminated (self (shutdown_signal signal.SIGINT PNone (Double.started 2)).1)
    = false
  ∧ (monitor_loop 1
       (shutdown_signal signal.SIGINT PNone (Double.started 2)).1).2
    = Returned tt.
Proof.
  destruct (signal_handler_stops_monitor signal.SIGINT PNone 0
              (Double.started 2) eq_refl I)
    as (Hsignal & Hflag & _ & q & _ & _ & Hloop).
  rewrite Hsignal. cbn [fst snd]. rewrite Hloop, Hflag. done.
Defined.

(** ** The grammar of the restart messages *)

Section Messages.
Context {PAPI : ProcessAPI} {API : WorkerAPI}.

Lemma occurs_app c a b : occurs c (a +:+ b) = occurs c a || occurs c b.
Proof.
  induction a as [|c' a IH]; [done|]. simpl. simpl in IH.
  by rewrite IH, orb_assoc.
Qed.

Lemma split_without sep a : occurs sep a = false → split sep a = [a].
Proof.
  induction a as [|c a IH]; [done|]. cbn [occurs split].
  destruct (bool_decide (c = sep)); [done|]. cbn [orb].
  intros Ha. by rewrite IH.
Qed.

Lemma split_app sep a b :
  occurs sep a = false → split sep (a +:+ String sep b) = a :: split sep b.
Proof.
  induction a as [|c a IH]; simpl.
  - intros _. by rewrite bool_decide_eq_true_2.
  - destruct (bool_decide (c = sep)); [done|]. simpl.
    intros Ha. simpl in IH. by rewrite IH.
Qed.

Lemma split_join_with (names : list string) :
  names ≠ [] →
  Forall (λ n, occurs "," n = false) names →
  split "," (join_with "," names) = names.
Proof.
  induction names as [|n names IH]; [done|]. intros _ Hall.
  apply Forall_cons in Hall as [Hn Hall].
  destruct names as [|n' names]; [by apply split_without|].
  change (join_with "," (n :: n' :: names))
    with (n +:+ String "," (join_with "," (n' :: names))).
  rewrite split_app by done. by rewrite IH.
Qed.

Lemma occurs_join_with (names : list string) :
  Forall (λ n, occurs ":" n = false) names →
  occurs ":" (join_with "," names) = false.
Proof.
  induction names as [|n names IH]; [done|]. intros Hall.
  apply Forall_cons in Hall as [Hn Hall].
  destruct names as [|n' names]; [done|].
  change (join_with "," (n :: n' :: names))
    with (n +:+ String "," (join_with "," (n' :: names))).
  rewrite occurs_app, Hn. cbn [occurs orb]. by apply IH.
Qed.

Lemma names_of_join_with (names : list string) :
  names ≠ [] →
  Forall plain_name names →
  "__ALL_PROCESSES__" ∉ names →
  names_of (join_with "," names) = Some names.
Proof.
  intros Hne Hplain Hall. unfold names_of.
  rewrite split_join_with
    by (done || by eapply Forall_impl; [exact Hplain|]; intros n (? & _)).
  rewrite fmap_fixed
    by (intros n Hn; by apply (proj1 (Forall_forall _ _) Hplain n Hn)).
  unfold contains. by rewrite bool_decide_eq_false_2.
Qed.

(** X14, the round trip of a restart message: names without comma, colon
    or white space around them, joined by commas, followed or not by a
    colon and a payload, are read back by the monitor as the same names,
    in their order, and the same payload, colons in the payload included;
    without the colon the payload is [None]. *)
Theorem restart_message_round_trip (names : list string) (payload : string) :
  names ≠ [] →
  Forall plain_name names →
  "__ALL_PROCESSES__" ∉ names →
  parse_message (join_with "," names +:+ ":" +:+ payload)
  = (Some names, {["reloaded_files" := PStr payload]})
  ∧ parse_message (join_with "," names)
    = (Some names, {["reloaded_files" := PNone]}).
Proof.
  intros Hne Hplain Hall.
  assert (Hcolon : occurs ":" (join_with "," names) = false).
  { apply occurs_join_with. eapply Forall_impl; [exact Hplain|].
    by intros n (_ & ? & _). }
  split.
  - change (join_with "," names +:+ ":" +:+ payload)
      with (join_with "," names +:+ String ":" payload).
    by rewrite parse_message_with, names_of_join_with.
  - by rewrite parse_message_without, names_of_join_with.
Qed.

End Messages.

(** Two names and a payload with a colon. *)
Lemma restart_message_round_trip_witness :
  parse_message "Server-0,Server-1:a.py:b.py"
  = (Some ["Server-0"; "Server-1"], {["reloaded_files" := PStr "a.py:b.py"]}).
Proof.
  apply (restart_message_round_trip ["Server-0"; "Server-1"] "a.py:b.py").
  - discriminate.
  - repeat constructor.
  - refine (bool_decide_unpack _ _). vm_compute. exact I.
Defined.
